(** * sdannce: dataset assembly ([dannce/engine/run/data.py])

    A shallow embedding of the dataset-assembly functions of
    [dannce/engine/run/data.py] and the properties of them that the
    specification states.

    Conventions of the embedding.
    - A Python [dict] is a [gmap]; where the iteration order of a dict is
      observable (the [pairs] dict of [make_dataset]) it is an association
      list in insertion order.
    - A Python exception is a value of [exn]; a function that may raise
      returns a [result].
    - The arithmetic on COMs is float64 arithmetic: an entry of a COM is
      a binary64 float ([f64]) with the IEEE 754 operations and
      comparisons, which are NumPy's.  The entries of a Pose3D are never
      computed with, only copied and tested for NaN; such an entry is a
      [float]: NaN or a number.
    - An array of shape [3, K] (a Pose3D) is the list of its [K] columns,
      each column one keypoint; an array of shape [3] (a COM) is a [vec3].
    - Where a function writes into an array in place
      ([sample_COM_augmentation]) the arrays live in a heap and the
      dictionary holds their locations; elsewhere arrays are values.
    - What the functions get from modules outside [data.py] (the
      [processing] helpers, the random generator, the files read) is an
      argument of the model. *)

From Stdlib Require Import ZArith Reals Floats Ascii String.
From stdpp Require Import base option list strings pretty gmap sorting.

(** ** Exceptions and results *)

(** The exceptions the modelled code can raise. *)
Inductive exn : Set :=
  | KeyError
  | IndexError
  | ValueError
  | AttributeError
  | UnboundLocalError
  | FileExistsError
  | FileNotFoundError
  | NotADirectoryError.

(** A returned value or a raised exception. *)
Inductive result (A : Type) : Type :=
  | Ok (a : A)
  | Raise (e : exn).
Arguments Ok {A} a.
Arguments Raise {A} e.

#[global] Instance result_ret : MRet result := λ A a, Ok a.
#[global] Instance result_bind : MBind result := λ A B f m,
  match m with
  | Ok a => f a
  | Raise e => Raise e
  end.

(** [d[k]] on a dict: [KeyError] when the key is absent. *)
Definition getitem `{Countable K} {V} (d : gmap K V) (k : K) : result V :=
  match d !! k with
  | Some v => Ok v
  | None => Raise KeyError
  end.

(** [l[i]] on a list: [IndexError] out of range. *)
Definition list_getitem {A} (l : list A) (i : nat) : result A :=
  match l !! i with
  | Some v => Ok v
  | None => Raise IndexError
  end.

(** A loop [for x in l: st = body(st, x)] whose body may raise. *)
Fixpoint for_each {A S} (body : S → A → result S) (l : list A) (st : S)
    : result S :=
  match l with
  | [] => Ok st
  | x :: l' => st' ← body st x; for_each body l' st'
  end.

(** ** Strings: [str], [int], [split] and [sorted] *)

(** [str(n)] of an integer is its decimal form; stdpp's [pretty] prints
    naturals and integers the way Python does ("0", "17", "-3"). *)
Definition str_nat (n : nat) : string := pretty n.
Definition str_Z (z : Z) : string := pretty z.

Definition underscore : ascii := "_"%char.
Definition dash : ascii := "-"%char.

(** [s.split(c)] for a one-character separator: the pieces between the
    occurrences of [c], never an empty list. *)
Fixpoint split_on (c : ascii) (s : string) : list string :=
  match s with
  | EmptyString => [EmptyString]
  | String a s' =>
      if decide (a = c) then EmptyString :: split_on c s'
      else match split_on c s' with
           | [] => [String a EmptyString]
           | p :: ps => String a p :: ps
           end
  end.

(** The value of an ASCII digit. *)
Definition digit_of (a : ascii) : option N :=
  let n := N_of_ascii a in
  if decide (48 ≤ n ∧ n ≤ 57)%N then Some (n - 48)%N else None.

(** The number that the rest [s] of a decimal numeral denotes when the
    digits before it gave [acc]: digits, where a digit may be preceded by
    one underscore that follows a digit ("1_000"). *)
Fixpoint parse_digits (acc : N) (s : string) : option N :=
  match s with
  | EmptyString => Some acc
  | String a s' =>
      match digit_of a with
      | Some d => parse_digits (acc * 10 + d)%N s'
      | None =>
          if decide (a = underscore) then
            match s' with
            | String b s'' =>
                match digit_of b with
                | Some d => parse_digits (acc * 10 + d)%N s''
                | None => None
                end
            | EmptyString => None
            end
          else None
      end
  end.

(** [c.isspace()] for a character below 256: the blanks that [int]
    strips off both ends. *)
Definition is_space (a : ascii) : bool :=
  bool_decide
    (N_of_ascii a ∈ [9; 10; 11; 12; 13; 28; 29; 30; 31; 32; 133; 160]%N).

(** The string without its leading, and without its trailing, blanks. *)
Fixpoint lstrip (s : string) : string :=
  match s with
  | EmptyString => EmptyString
  | String a s' => if is_space a then lstrip s' else s
  end.
Fixpoint rstrip (s : string) : string :=
  match s with
  | EmptyString => EmptyString
  | String a s' =>
      match rstrip s' with
      | EmptyString => if is_space a then EmptyString else String a EmptyString
      | t => String a t
      end
  end.

(** [int(s)] on a string of characters below 256: surrounding blanks
    are dropped; what is left is an optional sign and a decimal numeral
    that starts with a digit and may hold single underscores between
    digits; anything else is a [ValueError]. *)
Definition int_of_str (s : string) : result Z :=
  let unsigned (t : string) : result Z :=
    match t with
    | EmptyString => Raise ValueError
    | String a _ =>
        match digit_of a, parse_digits 0 t with
        | Some _, Some n => Ok (Z.of_N n)
        | _, _ => Raise ValueError
        end
    end in
  match rstrip (lstrip s) with
  | String a t =>
      if decide (a = dash) then z ← unsigned t; Ok (- z)%Z
      else if decide (a = "+"%char) then unsigned t
      else unsigned (String a t)
  | EmptyString => Raise ValueError
  end.

(** [sorted(l)] on strings: Python orders [str] by code point, which on
    byte strings is [String.leb]. *)
Definition sorted (l : list string) : list string := merge_sort String.le l.

(** ** [set_dataset] (data.py, lines 50-61) *)

Module SetDataset.

(** The values a parameter dictionary holds, as far as [set_dataset]
    looks at them. *)
Inductive pyval :=
  | PStr (s : string)
  | PInt (z : Z)
  | PBool (b : bool)
  | PNone.

#[global] Instance pyval_eq_dec : EqDecision pyval.
Proof. solve_decision. Defined.

(** The three dataset preparers the function chooses from. *)
Inductive preparer := make_rat7m | make_pair | make_dataset.

(** The local variable [spec_args] is read on line 55 and assigned
    nowhere before: [None] is the unbound local. *)
Definition read_local {A} (v : option A) : result A :=
  match v with
  | Some a => Ok a
  | None => Raise UnboundLocalError
  end.

(** The function; [params["dataset"]] is looked up anew in every
    [if]/[elif] test. *)
Definition set_dataset (params : gmap string pyval) : result preparer :=
  ds ← getitem params "dataset";
  if decide (ds = PStr "rat7m") then
    Ok make_rat7m
  else
    ds ← getitem params "dataset";
    if decide (ds = PStr "rat7m+pair") then
      let dataset_preparer := make_rat7m in
      let spec_args : option (gmap string pyval) := None in
      old ← read_local spec_args;
      let spec_args := Some (<["merge_pair" := PBool true]> old) in
      Ok dataset_preparer
    else
      ds ← getitem params "dataset";
      if decide (ds = PStr "pair") then Ok make_pair
      else Ok make_dataset.

End SetDataset.

(** ** Sample identifiers (data.py, lines 267-271 and 428-443) *)

Module SampleId.

(** [str(i) + "_" + str(frame)]: the identifier of frame [frame] of
    experiment [i] ([_convert_rat7m_to_label3d], line 268). *)
Definition encode (i : nat) (frame : Z) : string :=
  str_nat i +:+ "_" +:+ str_Z frame.

(** The same with the frame token already a string. *)
Definition join (i : nat) (token : string) : string :=
  str_nat i +:+ "_" +:+ token.

(** [int(samp.split("_")[0]), samp.split("_")[1]] ([make_rat7m],
    line 436). *)
Definition decode (samp : string) : result (Z * string) :=
  e ← (p ← list_getitem (split_on underscore samp) 0; int_of_str p);
  sampleID ← list_getitem (split_on underscore samp) 1;
  Ok (e, sampleID).

(** Putting the two parts of [decode] together again. *)
Definition reencode (parts : Z * string) : string :=
  str_Z parts.1 +:+ "_" +:+ parts.2.

(** [int(samp.split("_")[0])] alone (line 431). *)
Definition exp_of (samp : string) : result Z :=
  p ← list_getitem (split_on underscore samp) 0; int_of_str p.

End SampleId.

(** ** [make_dataset_com_inference] (data.py, lines 1226-1265) *)

Module ComInference.

(** One entry of the annotation dictionary: the per-camera 2D data
    (left abstract) and the per-camera frame index. *)
Record entry (D : Type) := Entry {
  data : D;
  frames : gmap string Z
}.
Arguments Entry {D} data frames.
Arguments data {D} e.
Arguments frames {D} e.

(** Lines 1236-1239: every negative frame index becomes 0. *)
Definition zero_negative (f : Z) : Z :=
  if decide (f < 0)%Z then 0%Z else f.

Definition zero_negative_frames {D} (e : entry D) : entry D :=
  Entry (data e) (zero_negative <$> frames e).

(** ["0_" + str(key)] (lines 1242 and 1245). *)
Definition prefix0 (key : Z) : string := "0_" +:+ str_Z key.

(** The partition and the annotation dictionary the function returns. *)
Record prepared (D : Type) := Prepared {
  partition_valid : list string;
  datadict : gmap string (entry D)
}.
Arguments Prepared {D} partition_valid datadict.
Arguments partition_valid {D} p.
Arguments datadict {D} p.

(** The part of the function that builds the partition and the
    annotation dictionary, from the samples and dictionary that
    [serve_data_DANNCE.prepare_data] returned.  The first loop writes
    into the entries in place and the second hands the same entries to
    the new dictionary, which is the one returned. *)
Definition make_dataset_com_inference {D}
    (samples : list Z) (datadict0 : gmap Z (entry D)) : prepared D :=
  let datadict1 := zero_negative_frames <$> datadict0 in
  let samples' := (λ f, prefix0 f) <$> samples in
  let datadict_ :=
    map_fold (λ key v acc, <[prefix0 key := v]> acc) ∅ datadict1 in
  Prepared samples' datadict_.

End ComInference.

(** ** Arrays: floats, COMs and poses *)

(** An entry of an annotation array, which the code copies and tests
    for NaN but never computes with: NaN or a number. *)
Inductive float :=
  | NaN
  | Fin (x : R).

(** [np.isnan] on one entry. *)
Definition isnan (f : float) : bool :=
  match f with
  | NaN => true
  | Fin _ => false
  end.

(** One column of a [3, K] array: the x, y and z entry of a keypoint. *)
Definition keypoint : Type := float * float * float.
(** A Pose3D, shape [3, K], as its list of [K] columns. *)
Definition pose : Type := list keypoint.

(** A keypoint that is not set. *)
Definition nan_keypoint : keypoint := (NaN, NaN, NaN).

(** All three entries of the keypoint are NaN; none of them is. *)
Definition keypoint_isnan (k : keypoint) : bool :=
  let '(x, y, z) := k in isnan x && isnan y && isnan z.
Definition keypoint_finite (k : keypoint) : bool :=
  let '(x, y, z) := k in negb (isnan x) && negb (isnan y) && negb (isnan z).

(** [np.isnan(p).all()]: the pose is entirely unset. *)
Definition isnan_all (p : pose) : bool := forallb keypoint_isnan p.
(** Every keypoint is a finite 3-vector: the pose is fully valid. *)
Definition fully_valid (p : pose) : bool := forallb keypoint_finite p.

(** [np.concatenate((p, q), axis=-1)] on two [3, K] arrays. *)
Definition concatenate_last (p q : pose) : pose := p ++ q.

(** A float64 number.  Its operations [+], [-], [*], [/] and [sqrt]
    round to the nearest binary64 number, ties to even, and its
    comparisons [leb] and [ltb] are false on NaN, as in NumPy. *)
Abbreviation f64 := PrimFloat.float.

(** A COM, shape [3], of float64 entries. *)
Record vec3 := Vec3 { vx : f64; vy : f64; vz : f64 }.

(** [a + b], [a - b] and [a / c], entry by entry. *)
Definition vec3_add (a b : vec3) : vec3 :=
  Vec3 (vx a + vx b)%float (vy a + vy b)%float (vz a + vz b)%float.
Definition vec3_sub (a b : vec3) : vec3 :=
  Vec3 (vx a - vx b)%float (vy a - vy b)%float (vz a - vz b)%float.
Definition vec3_div (a : vec3) (c : f64) : vec3 :=
  Vec3 (vx a / c)%float (vy a / c)%float (vz a / c)%float.
(** [np.sum(a ** 2)]: every entry is multiplied with itself, and the
    three squares are added from the first to the last. *)
Definition sum_sq (a : vec3) : f64 :=
  ((vx a * vx a + vy a * vy a) + vz a * vz a)%float.

(** ** Cache examination ([make_rat7m], lines 406-443; [make_pair],
       lines 1545-1587) *)

Module Cache.

(** The file system as the two functions read and write it: a path is
    the list of the components handed to [os.path.join]; a node is a
    file of some size or a directory. *)
Inductive node :=
  | File (size : nat)
  | Dir.

Abbreviation path := (list string).

(** [os.path.exists(p)] *)
Definition path_exists (fs : gmap (list string) node) (p : path) : bool :=
  bool_decide (is_Some (fs !! p)).

(** The name of [q] inside the directory [p], when [q] lies directly
    in [p]. *)
Definition child_name (p q : path) : option string :=
  match reverse q with
  | n :: r => if decide (reverse r = p) then Some n else None
  | [] => None
  end.

(** [os.listdir(p)] *)
Definition listdir (fs : gmap (list string) node) (p : path)
    : result (list string) :=
  match fs !! p with
  | Some Dir => Ok (omap (λ kv, child_name p kv.1) (map_to_list fs))
  | Some (File _) => Raise NotADirectoryError
  | None => Raise FileNotFoundError
  end.

(** The path and its parents, shortest first. *)
Definition prefixes (p : path) : list path :=
  (λ n, take n p) <$> seq 1 (length p).

(** [os.makedirs(p, exist_ok=...)]: creates [p] and its missing
    parents. *)
Definition makedirs (fs : gmap (list string) node) (p : path)
    (exist_ok : bool) : result (gmap (list string) node) :=
  match fs !! p with
  | Some Dir => if exist_ok then Ok fs else Raise FileExistsError
  | Some (File _) => Raise FileExistsError
  | None =>
      for_each (λ acc q,
        match acc !! q with
        | None => Ok (<[q := Dir]> acc)
        | Some Dir => Ok acc
        | Some (File _) => Raise NotADirectoryError
        end) (prefixes p) fs
  end.

(** Lines 406-408. *)
Definition NPY_DIRNAMES : list string :=
  ["image_volumes"; "grid_volumes"; "targets"].
Definition TO_BE_EXAMINED : list string := NPY_DIRNAMES.

(** The file system and the two dictionaries the examination fills. *)
Record exam := Exam {
  fsys : gmap (list string) node;
  npydir : gmap Z path;
  missing_npydir : gmap Z path
}.

(** [missing_npydir[e] = npydir[e]] *)
Definition flag_missing (e : Z) (st : exam) : result exam :=
  d ← getitem (npydir st) e;
  Ok (Exam (fsys st) (npydir st) (<[e := d]> (missing_npydir st))).

(** One round of the loop of lines 419-420, for a folder that does not
    exist: [os.makedirs(os.path.join(npydir[e], dir))]. *)
Definition create_subdir (e : Z) (st : exam) (dir : string) : result exam :=
  d ← getitem (npydir st) e;
  fs' ← makedirs (fsys st) (d ++ [dir]) false;
  Ok (Exam fs' (npydir st) (missing_npydir st)).

(** One round of the loop of lines 422-426, for a folder that exists. *)
Definition examine_subdir (e : Z) (st : exam) (dir : string) : result exam :=
  d ← getitem (npydir st) e;
  let dirpath := d ++ [dir] in
  empty ← (if negb (path_exists (fsys st) dirpath) then Ok true
           else l ← listdir (fsys st) dirpath;
                Ok (bool_decide (length l = 0)));
  if empty : bool then
    st ← flag_missing e st;
    fs' ← makedirs (fsys st) dirpath true;
    Ok (Exam fs' (npydir st) (missing_npydir st))
  else Ok st.

(** The body of [for e, name in enumerate(all_exps)] (lines 411-426),
    with [npy_folder] already joined. *)
Definition examine_dir (st : exam) (en : nat * path) : result exam :=
  let e := Z.of_nat en.1 in
  let npy_folder := en.2 in
  let st := Exam (fsys st) (<[e := npy_folder]> (npydir st))
                 (missing_npydir st) in
  d ← getitem (npydir st) e;
  if negb (path_exists (fsys st) d) then
    st ← flag_missing e st;
    for_each (create_subdir e) TO_BE_EXAMINED st
  else
    for_each (examine_subdir e) TO_BE_EXAMINED st.

(** [int(samp.split("_")[0]) in list(missing_npydir.keys())] *)
Definition in_missing_dir (st : exam) (samp : string) : result bool :=
  e ← SampleId.exp_of samp;
  Ok (bool_decide (e ∈ dom (missing_npydir st))).

(** The list comprehension of lines 428-432. *)
Fixpoint missing_by_dir (st : exam) (samples : list string)
    : result (list string) :=
  match samples with
  | [] => Ok []
  | samp :: rest =>
      b ← in_missing_dir st samp;
      tl ← missing_by_dir st rest;
      Ok (if b : bool then samp :: tl else tl)
  end.

(** The file of a sample in the image-volume namespace (line 438). *)
Definition image_file (d : path) (sampleID : string) : path :=
  d ++ ["image_volumes"; "0_" +:+ sampleID +:+ ".npy"].

(** The body of the loop of lines 435-441. *)
Definition examine_sample (acc : exam * list string) (samp : string)
    : result (exam * list string) :=
  let '(st, missing_samples) := acc in
  '(e, sampleID) ← SampleId.decode samp;
  d ← getitem (npydir st) e;
  if negb (path_exists (fsys st) (image_file d sampleID)) then
    st' ← flag_missing e st;
    Ok (st', missing_samples ++ [samp])
  else Ok (st, missing_samples).

(** Lines 409-443, for the folders [folders] of the experiments
    0, 1, ...: the examined state and the sorted missing samples. *)
Definition examine (folders : list path) (samples : list string)
    (fs : gmap (list string) node) : result (exam * list string) :=
  st ← for_each examine_dir (imap (λ e d, (e, d)) folders) (Exam fs ∅ ∅);
  missing_samples ← missing_by_dir st samples;
  let others : gset string :=
    list_to_set samples ∖ list_to_set missing_samples in
  '(st, missing_samples) ←
    for_each examine_sample (elements others) (st, missing_samples);
  Ok (st, sorted missing_samples).

(** [make_rat7m]: one folder per experiment name under
    [root/npy_volumes]. *)
Definition rat7m_exps : list string :=
  ["s1-d1"; "s2-d1"; "s2-d2"; "s3-d1"; "s4-d1"] ++ ["s5-d1"; "s5-d2"].
Definition rat7m_folders (root : path) : list path :=
  (λ name, root ++ ["npy_volumes"; name]) <$> rat7m_exps.
Definition make_rat7m_examine (root : path) :=
  examine (rat7m_folders root).

(** [make_pair]: two folders per experiment, one per animal, under
    [root/npy_folder]; experiment [e], animal [j] has index [2e+j]. *)
Definition pair_folders (root : path) (exps : list string) : list path :=
  exps ≫= (λ name,
    (λ j, root ++ ["npy_folder"; name +:+ "an" +:+ str_nat (j + 1)])
      <$> [0; 1]).
Definition make_pair_examine (root : path) (exps : list string) :=
  examine (pair_folders root exps).

(** *** The vocabulary of the examination's specification *)

(** A directory counts as empty when it is absent or has no entry. *)
Definition dir_flag (fs : gmap (list string) node) (p : path) : Prop :=
  fs !! p = None ∨ ∀ n, fs !! (p ++ [n]) = None.

(** The experiment folder [d] is put into [missing_npydir]: it is
    absent, or one of its three subdirectories is absent or empty. *)
Definition flagged (fs : gmap (list string) node) (d : path) : Prop :=
  fs !! d = None ∨ ∃ dir, dir ∈ TO_BE_EXAMINED ∧ dir_flag fs (d ++ [dir]).

End Cache.

(** The train and valid lists of a partition dictionary. *)
Record partition := Partition {
  train_sampleIDs : list string;
  valid_sampleIDs : list string
}.

(** [[f(x) for x in l]] when [f] may raise. *)
Fixpoint map_result {A B} (f : A → result B) (l : list A) : result (list B) :=
  match l with
  | [] => Ok []
  | x :: l' => y ← f x; ys ← map_result f l'; Ok (y :: ys)
  end.

(** ** The PAIR loader ([_convert_pair_to_label3d], lines 1268-1388, and
       the partition of [make_pair], lines 1423-1476) *)

Module PairLoader.

(** What the loader reads for one recording folder: the columns of its
    [markerDataset.csv], row by row, and the draw of
    [np.random.choice] made for it.  The 2D annotations and the camera
    files are left out: nothing below depends on them. *)
Record candidate := Candidate {
  folder : string;
  goodFrame_an1 : list bool;
  goodFrame_an2 : list bool;
  absolutePosition_an1 : list pose;
  absolutePosition_an2 : list pose;
  centerOfmass_an1 : list vec3;
  centerOfmass_an2 : list vec3;
  random_choice : list nat → nat → list nat
}.

(** What the loader threads through its loops: the running experiment
    index, the sample list, the two dictionaries and the folders read. *)
Record conv := Conv {
  count : nat;
  samples : list string;
  datadict_3d : gmap string pose;
  com3d_dict : gmap string vec3;
  exps : list string
}.

(** Line 1317: the rat7m keypoints that the 12 PAIR keypoints map to. *)
Definition pair_index : list nat := [0; 1; 2; 3; 4; 5; 6; 7; 8; 9; 12; 13].

(** Lines 1317-1320: a NaN array of 20 keypoints whose columns
    [pair_index] receive the columns of [p]; NumPy broadcasts a single
    column and rejects any other width. *)
Definition to_r7m (p : pose) : result pose :=
  let blank := replicate 20 nan_keypoint in
  let scatter (src : pose) :=
    foldl (λ acc ik, <[ik.1 := ik.2]> acc) blank (zip pair_index src) in
  if decide (length p = length pair_index) then Ok (scatter p)
  else match p with
       | [k] => Ok (scatter (replicate (length pair_index) k))
       | _ => Raise ValueError
       end.

(** [np.random.choice(frames, k)] *)
Definition choice (c : candidate) (frames : list nat) (k : nat)
    : result (list nat) :=
  match frames, k with
  | [], S _ => Raise ValueError
  | _, _ => Ok (random_choice c frames k)
  end.

(** Lines 1344-1354 (and 1356-1366): the entries of one animal. *)
Definition store_animal (expid : nat) (pose3d : list pose)
    (com3d : list vec3) (frames : list nat) (st : conv) : result conv :=
  for_each (λ st frame,
    let samp := SampleId.encode expid (Z.of_nat frame) in
    p ← list_getitem pose3d frame;
    c ← list_getitem com3d frame;
    Ok (Conv (count st) (samples st) (<[samp := p]> (datadict_3d st))
             (<[samp := c]> (com3d_dict st)) (exps st))) frames st.

(** The body of [for can in candidates] (lines 1293-1387); the first
    component of the state is the local [n_candidates]. *)
Definition convert_candidate (merge_pair : bool) (total_n : nat)
    (acc : nat * conv) (can : candidate) : result (nat * conv) :=
  let '(n_candidates, st) := acc in
  let st := Conv (count st) (samples st) (datadict_3d st) (com3d_dict st)
                 (exps st ++ [folder can]) in
  let good := zip_with andb (goodFrame_an1 can) (goodFrame_an2 can) in
  if decide (length (filter (λ b, b = true) good) = 0) then
    Ok (n_candidates - 1, st)
  else
    pose3d1 ← (if merge_pair then map_result to_r7m (absolutePosition_an1 can)
               else Ok (absolutePosition_an1 can));
    pose3d2 ← (if merge_pair then map_result to_r7m (absolutePosition_an2 can)
               else Ok (absolutePosition_an2 can));
    let frames :=
      filter (λ i, good !! i = Some true) (seq 0 (length good)) in
    let frames :=
      filter (λ i, (Z.of_nat i < Z.of_nat (length good) - 120)%Z) frames in
    frames ← choice can frames (total_n `div` n_candidates);
    let sampleIDs_an1 :=
      (λ frame, SampleId.encode (count st) (Z.of_nat frame)) <$> frames in
    let sampleIDs_an2 :=
      (λ frame, SampleId.encode (count st + 1) (Z.of_nat frame)) <$> frames in
    let st := Conv (count st) (samples st ++ sampleIDs_an1 ++ sampleIDs_an2)
                   (datadict_3d st) (com3d_dict st) (exps st) in
    st ← store_animal (count st) pose3d1 (centerOfmass_an1 can) frames st;
    st ← store_animal (count st + 1) pose3d2 (centerOfmass_an2 can) frames st;
    Ok (n_candidates,
        Conv (count st + 2) (samples st) (datadict_3d st) (com3d_dict st)
             (exps st)).

(** [_convert_pair_to_label3d]: [experiments] gives, for each experiment
    name, the folders that pass the metadata filter; the first two are
    the candidates. *)
Definition _convert_pair_to_label3d (merge_pair : bool)
    (experiments : list (list candidate)) (total_n : nat) (count0 : nat)
    (samples0 : list string) (datadict_3d0 : gmap string pose)
    (com3d_dict0 : gmap string vec3) : result conv :=
  for_each (λ st found,
    let candidates := take 2 found in
    r ← for_each (convert_candidate merge_pair total_n) candidates
                 (length candidates, st);
    Ok r.2) experiments (Conv count0 samples0 datadict_3d0 com3d_dict0 []).

(** The sample list, dictionaries and partition of [make_pair]. *)
Record loaded := Loaded {
  all_samples : list string;
  labels_3d : gmap string pose;
  coms_3d : gmap string vec3;
  parts : partition
}.

(** [make_pair], lines 1423-1476. *)
Definition make_pair (merge_pair : bool)
    (experiments_train experiments_test : list (list candidate))
    : result loaded :=
  st1 ← _convert_pair_to_label3d merge_pair experiments_train 1000 0 [] ∅ ∅;
  let train := sorted (samples st1) in
  st2 ← _convert_pair_to_label3d merge_pair experiments_test 100
          (length (exps st1) * 2) (samples st1) (datadict_3d st1)
          (com3d_dict st1);
  let valid :=
    sorted (elements
      ((list_to_set (samples st2) : gset string) ∖ list_to_set train)) in
  Ok (Loaded (samples st2) (datadict_3d st2) (com3d_dict st2)
             (Partition train valid)).

End PairLoader.

(** ** The social big-volume policy ([make_dataset], lines 123-168) *)

Module BigVolume.
Section big_volume.

(** [processing.mask_coords_outside_volume(lo, hi, pose3d, com)] is
    defined outside [data.py]; it is a parameter here. *)
Variable mask_coords_outside_volume : f64 → f64 → pose → vec3 → pose.

(** [np.sqrt(np.sum((anchor1 - anchor2) ** 2))] *)
Definition dist (anchor1 anchor2 : vec3) : f64 :=
  PrimFloat.sqrt (sum_sq (vec3_sub anchor1 anchor2)).

(** [(anchor1 + anchor2) / 2] *)
Definition midpoint (anchor1 anchor2 : vec3) : vec3 :=
  vec3_div (vec3_add anchor1 anchor2) 2%float.

(** Lines 142-147: [new_pose3d]. *)
Definition merged_pose (anchor1 anchor2 : vec3) (pose3d1 pose3d2 : pose)
    : pose :=
  let primary :=
    if PrimFloat.ltb (vx anchor1) (vx anchor2) then pose3d1 else pose3d2 in
  let secondary :=
    if PrimFloat.ltb (vx anchor1) (vx anchor2) then pose3d2 else pose3d1 in
  concatenate_last primary secondary.

(** The new dictionaries and the sample list of the split at hand. *)
Record acc := Acc {
  new_datadict3d : gmap string pose;
  new_comdict3d : gmap string vec3;
  samps : list string
}.

(** The body of [for (vol1, vol2) in v] (lines 134-152). *)
Definition merge_pair (vmin vmax threshold : f64)
    (com3d_dict : gmap string vec3) (datadict_3d : gmap string pose)
    (st : acc) (vols : string * string) : result acc :=
  let '(vol1, vol2) := vols in
  anchor1 ← getitem com3d_dict vol1;
  anchor2 ← getitem com3d_dict vol2;
  pose3d1 ← getitem datadict_3d vol1;
  pose3d2 ← getitem datadict_3d vol2;
  if PrimFloat.leb (dist anchor1 anchor2) threshold then
    let new_com := midpoint anchor1 anchor2 in
    let new_pose3d := merged_pose anchor1 anchor2 pose3d1 pose3d2 in
    Ok (Acc (<[vol1 := mask_coords_outside_volume
                         (vmin - threshold / 2)%float
                         (vmax + threshold / 2)%float
                         new_pose3d new_com]> (new_datadict3d st))
            (<[vol1 := new_com]> (new_comdict3d st))
            (samps st ++ [vol1]))
  else Ok st.

(** Line 130. *)
Definition partition_names : list string :=
  ["train_sampleIDs"; "valid_sampleIDs"].

(** The state of the loop over the splits. *)
Record outer := Outer {
  dicts : acc;
  new_partition : gmap string (list string);
  samples_acc : list string
}.

(** The body of [for i, (k, v) in enumerate(pairs.items())]
    (lines 131-154). *)
Definition merge_split (vmin vmax threshold : f64)
    (com3d_dict : gmap string vec3) (datadict_3d : gmap string pose)
    (st : outer) (ikv : nat * (string * list (string * string)))
    : result outer :=
  let '(i, (k, v)) := ikv in
  let start := Acc (new_datadict3d (dicts st)) (new_comdict3d (dicts st)) [] in
  a ← for_each (merge_pair vmin vmax threshold com3d_dict datadict_3d) v start;
  name ← list_getitem partition_names i;
  Ok (Outer a (<[name := samps a]> (new_partition st))
            (samples_acc st ++ samps a)).

(** What the block leaves behind: the dictionaries, sample list and
    partition handed on, and the updated parameters. *)
Record out := Out {
  datadict_3d' : gmap string pose;
  com3d_dict' : gmap string vec3;
  samples' : list string;
  partition' : gmap string (list string);
  vmin' : f64;
  vmax' : f64;
  n_channels_out' : Z
}.

(** Lines 123-168, entered when [params["social_big_volume"]] holds.
    [pairs] is [None] unless [resplit_social] ran; as a dict it is
    listed in insertion order.  [vmin] and [vmax] are float64 numbers
    (or integers that float64 holds, for which the difference is the
    same). *)
Definition social_big_volume (vmin vmax : f64) (n_channels_out : Z)
    (pairs : option (list (string * list (string * string))))
    (com3d_dict : gmap string vec3) (datadict_3d : gmap string pose)
    : result out :=
  let threshold := ((vmax - vmin) / 2)%float in
  items ← match pairs with
          | Some items => Ok items
          | None => Raise AttributeError
          end;
  st ← for_each (merge_split vmin vmax threshold com3d_dict datadict_3d)
        (imap (λ i kv, (i, kv)) items) (Outer (Acc ∅ ∅ []) ∅ []);
  Ok (Out (new_datadict3d (dicts st)) (new_comdict3d (dicts st))
          (sorted (samples_acc st)) (new_partition st)
          (vmin - threshold / 2)%float (vmax + threshold / 2)%float
          (n_channels_out * 2)).

End big_volume.
End BigVolume.

(** ** COM augmentation ([sample_COM_augmentation], lines 494-536) *)

Module ComAug.
Section augmentation.

(** The 2D annotation of a sample; the function only copies it. *)
Variable D : Type.
(** The generator behind [np.random.rand]: [rand n] is the vector the
    [n]-th call returns. *)
Variable rand : nat → vec3.

(** COM arrays live in a heap: [com3d_dict] maps a sample to the
    location of its array, [deepcopy] allocates and [+=] writes in
    place. *)
Record state := State {
  datadict : gmap string D;
  datadict_3d : gmap string pose;
  com3d_dict : gmap string positive;
  heap : gmap positive vec3;
  rng : nat;
  train_samples_new : list string
}.

(** The array at a location. *)
Definition read (h : gmap positive vec3) (l : positive) : result vec3 :=
  getitem h l.

(** [deepcopy(a)]: a new array with the entries of [a]. *)
Definition deepcopy (h : gmap positive vec3) (l : positive)
    : result (positive * gmap positive vec3) :=
  v ← read h l;
  let l' := fresh (dom h) in
  Ok (l', <[l' := v]> h).

(** [a += b], in place. *)
Definition iadd (h : gmap positive vec3) (l : positive) (b : vec3)
    : result (gmap positive vec3) :=
  v ← read h l;
  Ok (<[l := vec3_add v b]> h).

(** [perturb_radius * 2 * np.random.rand(3) - perturb_radius]: the
    radius is doubled, multiplied with the draw and reduced by the
    radius, in this order and entry by entry.  (The doubling is exact,
    for a float64 radius and for an integer radius alike.) *)
Definition com_aug (perturb_radius : f64) (u : vec3) : vec3 :=
  Vec3 (perturb_radius * 2 * vx u - perturb_radius)%float
       (perturb_radius * 2 * vy u - perturb_radius)%float
       (perturb_radius * 2 * vz u - perturb_radius)%float.

(** [sample + "-comaug{}".format(iter)] *)
Definition tag (iter : nat) (sample : string) : string :=
  sample +:+ "-comaug" +:+ str_nat iter.

(** The body of [for sample in pbar] (lines 511-531). *)
Definition augment_sample (perturb_radius : f64) (train_samples : list string)
    (iter : nat) (st : state) (sample : string) : result state :=
  if decide (sample ∉ train_samples) then Ok st
  else
    p ← getitem (datadict_3d st) sample;
    if isnan_all p then Ok st
    else
      l ← getitem (com3d_dict st) sample;
      '(com3d_new, h) ← deepcopy (heap st) l;
      let aug := com_aug perturb_radius (rand (rng st)) in
      h ← iadd h com3d_new aug;
      let sample_new := tag iter sample in
      let com3d_dict := <[sample_new := com3d_new]> (com3d_dict st) in
      p ← getitem (datadict_3d st) sample;
      let datadict_3d := <[sample_new := p]> (datadict_3d st) in
      d ← getitem (datadict st) sample;
      let datadict := <[sample_new := d]> (datadict st) in
      Ok (State datadict datadict_3d com3d_dict h (S (rng st))
                (train_samples_new st ++ [sample_new])).

(** What the function returns: the sample list, the dictionaries (in
    the final state) and the partition. *)
Record augmented := Augmented {
  samples : list string;
  final : state;
  parts : partition
}.

(** The function; [st] holds the three dictionaries it is given. *)
Definition sample_COM_augmentation (st : state) (part : partition)
    (perturb_radius : f64) (aug_iters : nat) : result augmented :=
  let train_samples := train_sampleIDs part in
  let valid_samples := valid_sampleIDs part in
  let st := State (datadict st) (datadict_3d st) (com3d_dict st) (heap st)
                  (rng st) [] in
  st ← for_each (λ st iter,
          for_each (augment_sample perturb_radius train_samples iter)
                   train_samples st) (seq 0 aug_iters) st;
  Ok (Augmented
        (sorted (train_samples ++ train_samples_new st ++ valid_samples))
        st
        (Partition (sorted (train_samples ++ train_samples_new st))
                   valid_samples)).

End augmentation.

Arguments State {D} _ _ _ _ _ _.
Arguments datadict {D} _.
Arguments datadict_3d {D} _.
Arguments com3d_dict {D} _.
Arguments heap {D} _.
Arguments rng {D} _.
Arguments train_samples_new {D} _.
Arguments Augmented {D} _ _ _.
Arguments samples {D} _.
Arguments final {D} _.
Arguments parts {D} _.
Arguments augment_sample {D} _ _ _ _ _ _.
Arguments sample_COM_augmentation {D} _ _ _ _ _.

End ComAug.

(** ** The train split of [make_rat7m] (data.py, lines 372-386) *)

Module Rat7m.

(** [np.random.choice(a, size)]: [size] draws from [a], with
    replacement; [draw] is the generator, and an empty [a] is a
    [ValueError]. *)
Definition random_choice (draw : list string → nat → list string)
    (a : list string) (size : nat) : result (list string) :=
  match a, size with
  | [], S _ => Raise ValueError
  | _, _ => Ok (draw a size)
  end.

(** Lines 373-386: [split] is the partition that
    [processing.make_data_splits], defined outside [data.py], returned;
    under [merge_pair] the train list is replaced by 2000 draws from
    it. *)
Definition make_rat7m_partition (draw : list string → nat → list string)
    (merge_pair : bool) (split : partition) : result partition :=
  if merge_pair then
    train ← random_choice draw (train_sampleIDs split) 2000;
    Ok (Partition train (valid_sampleIDs split))
  else Ok split.

End Rat7m.
(** * The vocabulary of the specification *)

(** Every character of [s] satisfies [P]. *)
Fixpoint all_chars (P : ascii → Prop) (s : string) : Prop :=
  match s with
  | EmptyString => True
  | String a s' => P a ∧ all_chars P s'
  end.

(** [a] is one of the characters "0" to "9". *)
Definition is_digit (a : ascii) : Prop := is_Some (digit_of a).

(** An identifier made by the loader: experiment index and frame number. *)
Definition encoded (s : string) : Prop :=
  ∃ c f, s = SampleId.encode c (Z.of_nat f).

(** [src] is a row of the 3D annotation of one of the folders read. *)
Definition source_row (exps : list (list PairLoader.candidate)) (src : pose)
    : Prop :=
  ∃ found can, found ∈ exps ∧ can ∈ found ∧
    (src ∈ PairLoader.absolutePosition_an1 can ∨
     src ∈ PairLoader.absolutePosition_an2 can).

(** How the loader turns the annotation row [src] into the pose it
    stores: padded to the 20 rat7m keypoints under [merge_pair],
    unchanged otherwise. *)
Definition stored_from (merge_pair : bool) (src p : pose) : Prop :=
  if merge_pair then PairLoader.to_r7m src = Ok p else p = src.

(** What the loops of the loader keep: the sample list only grows, by
    identifiers of the loader, and every stored pose satisfies [Q]. *)
Definition conv_inv (Q : pose → Prop) (samples0 : list string)
    (st : PairLoader.conv) : Prop :=
  (∃ extra, PairLoader.samples st = samples0 ++ extra ∧ Forall encoded extra) ∧
  ∀ s p, PairLoader.datadict_3d st !! s = Some p → Q p.

(** The pair [vols] merges: both COMs are known and their Euclidean
    distance, as the code computes it, is at most the threshold. *)
Definition close_pair (com3d_dict : gmap string vec3) (threshold : f64)
    (vols : string * string) : Prop :=
  match com3d_dict !! vols.1, com3d_dict !! vols.2 with
  | Some anchor1, Some anchor2 =>
      PrimFloat.leb (BigVolume.dist anchor1 anchor2) threshold = true
  | _, _ => False
  end.

#[global] Instance close_pair_dec com3d_dict threshold vols :
  Decision (close_pair com3d_dict threshold vols).
Proof.
  unfold close_pair.
  destruct (com3d_dict !! vols.1), (com3d_dict !! vols.2); apply _.
Defined.

(** The first members of the pairs of [v] that merge, in order. *)
Definition merged_firsts (com3d_dict : gmap string vec3) (threshold : f64)
    (v : list (string * string)) : list string :=
  (filter (close_pair com3d_dict threshold) v).*1.

(** All four dictionary entries a pair needs are there. *)
Definition pair_known (com3d_dict : gmap string vec3)
    (datadict_3d : gmap string pose) (vols : string * string) : Prop :=
  is_Some (com3d_dict !! vols.1) ∧ is_Some (com3d_dict !! vols.2) ∧
  is_Some (datadict_3d !! vols.1) ∧ is_Some (datadict_3d !! vols.2).

(** All the pairs of the [pairs] dictionary. *)
Definition all_pairs (items : list (string * list (string * string)))
    : list (string * string) :=
  items ≫= snd.

(** The last pair of [v] that has the first member [s] and merges. *)
Definition last_merge (com3d_dict : gmap string vec3) (threshold : f64)
    (v : list (string * string)) (s : string) : option (string * string) :=
  last (filter (λ vols, vols.1 = s ∧ close_pair com3d_dict threshold vols) v).

(** The COM and the pose that the merge of the pair [vols] stores under
    the first member of the pair. *)
Definition merged_entry
    (mask_coords_outside_volume : f64 → f64 → pose → vec3 → pose)
    (vmin vmax threshold : f64) (com3d_dict : gmap string vec3)
    (datadict_3d : gmap string pose) (vols : string * string)
    : option (vec3 * pose) :=
  anchor1 ← com3d_dict !! vols.1;
  anchor2 ← com3d_dict !! vols.2;
  pose3d1 ← datadict_3d !! vols.1;
  pose3d2 ← datadict_3d !! vols.2;
  Some (BigVolume.midpoint anchor1 anchor2,
        mask_coords_outside_volume
          (vmin - threshold / 2)%float (vmax + threshold / 2)%float
          (BigVolume.merged_pose anchor1 anchor2 pose3d1 pose3d2)
          (BigVolume.midpoint anchor1 anchor2)).

(** After the pairs [v], the two new dictionaries hold under every key
    [s] what the last merging pair of [v] with the first member [s]
    stores; a key that is the first member of no merging pair of [v] is
    as it was before. *)
Definition dicts_last
    (mask_coords_outside_volume : f64 → f64 → pose → vec3 → pose)
    (vmin vmax threshold : f64) (com3d_dict : gmap string vec3)
    (datadict_3d : gmap string pose) (v : list (string * string))
    (old new : BigVolume.acc) : Prop :=
  ∀ s, match last_merge com3d_dict threshold v s with
       | Some vols =>
           ∃ c p, merged_entry mask_coords_outside_volume vmin vmax threshold
                    com3d_dict datadict_3d vols = Some (c, p) ∧
                  BigVolume.new_comdict3d new !! s = Some c ∧
                  BigVolume.new_datadict3d new !! s = Some p
       | None =>
           BigVolume.new_comdict3d new !! s = BigVolume.new_comdict3d old !! s ∧
           BigVolume.new_datadict3d new !! s = BigVolume.new_datadict3d old !! s
       end.

(** The sample is labeled: its pose is known and not entirely NaN. *)
Definition labeled (datadict_3d : gmap string pose) (s : string) : Prop :=
  match datadict_3d !! s with
  | Some p => isnan_all p = false
  | None => False
  end.

#[global] Instance labeled_dec datadict_3d s : Decision (labeled datadict_3d s).
Proof. unfold labeled. destruct (datadict_3d !! s); apply _. Defined.

(** The identifiers that [aug_iters] rounds of augmentation add, in the
    order in which they are added. *)
Definition new_tags (datadict_3d : gmap string pose) (train : list string)
    (aug_iters : nat) : list string :=
  seq 0 aug_iters ≫= (λ iter,
    ComAug.tag iter <$> filter (labeled datadict_3d) train).

(** The identifier carries an augmentation tag. *)
Definition tagged (s : string) : Prop := ∃ iter s0, s = ComAug.tag iter s0.

(** [k] is the identifier that a round below [aug_iters] gives to the
    copy of an entry of [train]. *)
Definition tag_of (train : list string) (aug_iters : nat) (k : string)
    : Prop :=
  ∃ iter s, iter < aug_iters ∧ s ∈ train ∧ k = ComAug.tag iter s.

(** The entries the state [st] holds for the copy [iter] of [s]: a COM
    array that was not there at the start and holds, entry by entry,
    the float64 sum of the original COM and the perturbation made from
    one draw, and the original pose and 2D annotation; the draw is one
    of those made since the start. *)
Definition good {D : Type} (rand : nat → vec3) (perturb_radius : f64)
    (st0 st : ComAug.state D) (iter : nat) (s : string) : Prop :=
  ∃ l0 c0 l1 n,
    ComAug.com3d_dict st0 !! s = Some l0 ∧ ComAug.heap st0 !! l0 = Some c0 ∧
    ComAug.com3d_dict st !! ComAug.tag iter s = Some l1 ∧
    ComAug.heap st0 !! l1 = None ∧
    ComAug.heap st !! l1
      = Some (vec3_add c0 (ComAug.com_aug perturb_radius (rand n))) ∧
    ComAug.datadict_3d st !! ComAug.tag iter s = ComAug.datadict_3d st0 !! s ∧
    ComAug.datadict st !! ComAug.tag iter s = ComAug.datadict st0 !! s ∧
    ComAug.rng st0 ≤ n < ComAug.rng st.

(** The entries that the function needs of the train samples: a pose
    for every one, and for the labeled ones a 2D annotation and a COM
    array. *)
Definition known {D : Type} (train : list string) (st : ComAug.state D)
    : Prop :=
  (∀ s, s ∈ train → is_Some (ComAug.datadict_3d st !! s)) ∧
  (∀ s, s ∈ train → labeled (ComAug.datadict_3d st) s →
     is_Some (ComAug.datadict st !! s) ∧
     ∃ l, ComAug.com3d_dict st !! s = Some l ∧ is_Some (ComAug.heap st !! l)).

(** What every round keeps, whatever the identifiers are: no array that
    was there at the start is written to; the entries under identifiers
    that are not tagged copies of train samples are as they were; every
    identifier added is such a copy and has a 2D annotation, a pose and
    a COM array that was not there at the start; every identifier added
    took one draw of the generator. *)
Definition kept {D : Type} (train : list string) (aug_iters : nat)
    (st0 st : ComAug.state D) : Prop :=
  (∀ l c, ComAug.heap st0 !! l = Some c → ComAug.heap st !! l = Some c) ∧
  (∀ k, ¬ tag_of train aug_iters k →
        ComAug.datadict st !! k = ComAug.datadict st0 !! k ∧
        ComAug.datadict_3d st !! k = ComAug.datadict_3d st0 !! k ∧
        ComAug.com3d_dict st !! k = ComAug.com3d_dict st0 !! k) ∧
  (∀ t, t ∈ ComAug.train_samples_new st →
        tag_of train aug_iters t ∧
        is_Some (ComAug.datadict st !! t) ∧
        is_Some (ComAug.datadict_3d st !! t) ∧
        ∃ l, ComAug.com3d_dict st !! t = Some l ∧
             ComAug.heap st0 !! l = None ∧ is_Some (ComAug.heap st !! l)) ∧
  ComAug.rng st = ComAug.rng st0 + length (ComAug.train_samples_new st).

(** Whether a run returned. *)
Definition returned {A} (r : result A) : bool :=
  match r with
  | Ok _ => true
  | Raise _ => false
  end.

(** The second component of what a run returns. *)
Definition returned_snd {A B} (r : result (A * B)) : result B :=
  match r with
  | Ok (_, b) => Ok b
  | Raise e => Raise e
  end.

(** * Example data *)

(** A cache of the first rat7m experiment in which the sample "0_9" has
    a file in each of the three namespaces, while the sample "0_5" has
    an empty file in the image-volume namespace and no file in the two
    others. *)
Definition cache_root : list string := ["datasets"; "rat7m"].
Definition cache_folder : list string := cache_root ++ ["npy_volumes"; "s1-d1"].
Definition cache_fs : gmap (list string) Cache.node :=
  list_to_map
    [ (["datasets"], Cache.Dir);
      (cache_root, Cache.Dir);
      (cache_root ++ ["npy_volumes"], Cache.Dir);
      (cache_folder, Cache.Dir);
      (cache_folder ++ ["image_volumes"], Cache.Dir);
      (cache_folder ++ ["image_volumes"; "0_5.npy"], Cache.File 0);
      (cache_folder ++ ["image_volumes"; "0_9.npy"], Cache.File 64);
      (cache_folder ++ ["grid_volumes"], Cache.Dir);
      (cache_folder ++ ["grid_volumes"; "0_9.npy"], Cache.File 64);
      (cache_folder ++ ["targets"], Cache.Dir);
      (cache_folder ++ ["targets"; "0_9.npy"], Cache.File 64) ].

(** A recording of 121 good frames in which both animals have all 12
    keypoints labeled in every frame; the random draw picks frame 0. *)
Definition labeled_keypoint (x : Z) : keypoint :=
  (Fin (IZR x), Fin (IZR x + 1), Fin 2).
Definition labeled_pose : pose :=
  labeled_keypoint <$> [0; 1; 2; 3; 4; 5; 6; 7; 8; 9; 10; 11]%Z.
Definition labeled_candidate : PairLoader.candidate :=
  PairLoader.Candidate "SR1_SR2"
    (replicate 121 true) (replicate 121 true)
    (replicate 121 labeled_pose) (replicate 121 labeled_pose)
    (replicate 121 (Vec3 0 0 0)) (replicate 121 (Vec3 1 0 0))
    (λ frames k, replicate k 0).

(** Two pairs in the train split: the instances of frame 7 are 100
    apart, those of frame 8 are 10 apart; the extent is [-60, 60], so
    the threshold is 60.  The masking helper is taken to change
    nothing. *)
Definition example_pairs : list (string * list (string * string)) :=
  [("train_pairs", [("0_7", "1_7"); ("0_8", "1_8")]); ("valid_pairs", [])].
Definition example_com : gmap string vec3 :=
  list_to_map [("0_7", Vec3 0 0 0); ("1_7", Vec3 100 0 0);
               ("0_8", Vec3 0 0 0); ("1_8", Vec3 10 0 0)].
Definition example_pose (x : R) : pose := [(Fin x, Fin 0, Fin 0)].
Definition example_dd : gmap string pose :=
  list_to_map [("0_7", example_pose 1); ("1_7", example_pose 101);
               ("0_8", example_pose 1); ("1_8", example_pose 11)].
Definition no_mask (lo hi : f64) (p : pose) (c : vec3) : pose := p.

(** A pair at the edge of the threshold: the extent is [-1, 1], so the
    threshold is 1; the two COMs are 1 apart in x and 2^-30 apart in y.
    The sum of the squares, 1 + 2^-60, is rounded to 1, so the distance
    that the code computes is 1. *)
Definition edge_pairs : list (string * list (string * string)) :=
  [("train_pairs", [("0_7", "1_7")])].
Definition edge_com : gmap string vec3 :=
  list_to_map [("0_7", Vec3 0 0 0); ("1_7", Vec3 1 0x1p-30 0)].

(** Two pairs with the same first member, both 10 apart; the extent is
    again [-60, 60]. *)
Definition shared_pairs : list (string * list (string * string)) :=
  [("train_pairs", [("0_8", "1_8"); ("0_8", "2_8")])].
Definition shared_com : gmap string vec3 :=
  list_to_map [("0_8", Vec3 0 0 0); ("1_8", Vec3 10 0 0);
               ("2_8", Vec3 0 10 0)].
Definition shared_dd : gmap string pose :=
  list_to_map [("0_8", example_pose 1); ("1_8", example_pose 11);
               ("2_8", example_pose 21)].

(** A split of [make_rat7m]: the 2001 frames 0, ..., 2000 of experiment
    0 in the train list, one frame of experiment 5 in the valid list. *)
Definition rat7m_train : list string :=
  (λ f, SampleId.encode 0 (Z.of_nat f)) <$> seq 0 2001.
Definition rat7m_split : partition := Partition rat7m_train ["5_0"].

(** A state with the labeled train sample "0_1", the unlabeled train
    sample "0_2" and the valid sample "0_3"; every draw is 1/2. *)
Definition aug_state : ComAug.state unit :=
  ComAug.State
    (list_to_map [("0_1", ()); ("0_2", ()); ("0_3", ())])
    (list_to_map [("0_1", [(Fin 1, Fin 2, Fin 3)]);
                  ("0_2", [nan_keypoint]);
                  ("0_3", [(Fin 4, Fin 5, Fin 6)])])
    (list_to_map [("0_1", 1%positive); ("0_2", 2%positive);
                  ("0_3", 3%positive)])
    (list_to_map [(1%positive, Vec3 0 0 0); (2%positive, Vec3 1 1 1);
                  (3%positive, Vec3 2 2 2)])
    0 [].
Definition aug_partition : partition := Partition ["0_1"; "0_2"] ["0_3"].
Definition half_draw (n : nat) : vec3 := Vec3 0.5 0.5 0.5.

(** A train split that lists the labeled sample "0_1" twice, as the
    draws with replacement of the PAIR loader may; the COM of the sample
    has the x-coordinate -12.2 (the nearest float64 number), the radius
    is 20 and every draw is 0, so the perturbation is -20 on every
    axis. *)
Definition twice_state : ComAug.state unit :=
  ComAug.State
    (list_to_map [("0_1", ())])
    (list_to_map [("0_1", [(Fin 1, Fin 2, Fin 3)])])
    (list_to_map [("0_1", 1%positive)])
    (list_to_map [(1%positive, Vec3 (-0x1.8666666666666p+3) 0 0)])
    0 [].
Definition twice_partition : partition := Partition ["0_1"; "0_1"] [].
Definition zero_draw (n : nat) : vec3 := Vec3 0 0 0.

(** * Properties *)

(** ** Results *)

Lemma bind_Ok {A B} (m : result A) (f : A → result B) (b : B) :
  m ≫= f = Ok b ↔ ∃ a, m = Ok a ∧ f a = Ok b.
Proof.
  destruct m as [a|e]; simpl; split.
  - eauto.
  - by intros (a' & [= ->] & ?).
  - done.
  - by intros (? & ? & ?).
Qed.

Lemma getitem_Ok `{Countable K} {V} (d : gmap K V) (k : K) (v : V) :
  getitem d k = Ok v ↔ d !! k = Some v.
Proof. unfold getitem. destruct (d !! k); naive_solver. Qed.

Lemma list_getitem_Ok {A} (l : list A) (i : nat) (v : A) :
  list_getitem l i = Ok v ↔ l !! i = Some v.
Proof. unfold list_getitem. destruct (l !! i); naive_solver. Qed.

Lemma for_each_app {A S} (body : S → A → result S) (l1 l2 : list A) (st : S) :
  for_each body (l1 ++ l2) st = for_each body l1 st ≫= for_each body l2.
Proof.
  revert st. induction l1 as [|x l1 IH]; intros st; simpl; [done|].
  destruct (body st x); simpl; auto.
Qed.

(** A loop invariant: what holds before the loop and is kept by every
    round of it holds when the loop ends. *)
Lemma for_each_invariant {A S} (I : S → Prop) (body : S → A → result S)
    (l : list A) (st st' : S) :
  (∀ s x s', x ∈ l → I s → body s x = Ok s' → I s') →
  I st → for_each body l st = Ok st' → I st'.
Proof.
  revert st. induction l as [|x l IH]; intros st Hstep Hst Hrun; simpl in *.
  - by injection Hrun as <-.
  - apply bind_Ok in Hrun as (s1 & Hb & Hrest).
    eapply IH; [|eapply Hstep; [|done..]|done].
    + intros s y s' Hy. apply Hstep. by right.
    + by left.
Qed.

Lemma sorted_Permutation (l : list string) : sorted l ≡ₚ l.
Proof. apply merge_sort_Permutation. Qed.

Lemma elem_of_sorted (s : string) (l : list string) : s ∈ sorted l ↔ s ∈ l.
Proof. by rewrite sorted_Permutation. Qed.

(** ** Decimal strings *)

Lemma all_chars_app P s1 s2 :
  all_chars P (s1 +:+ s2) ↔ all_chars P s1 ∧ all_chars P s2.
Proof. induction s1 as [|a s1 IH]; simpl; [tauto|]. rewrite IH. tauto. Qed.

Lemma all_chars_impl (P Q : ascii → Prop) s :
  (∀ a, P a → Q a) → all_chars P s → all_chars Q s.
Proof. intros HPQ. induction s as [|a s IH]; simpl; [done|]. intuition. Qed.

Lemma digit_of_pretty_N_char (d : N) :
  (d < 10)%N → digit_of (pretty_N_char d) = Some d.
Proof.
  intros Hd.
  assert (d = 0 ∨ d = 1 ∨ d = 2 ∨ d = 3 ∨ d = 4 ∨ d = 5 ∨ d = 6 ∨ d = 7
          ∨ d = 8 ∨ d = 9)%N as Hcases by lia.
  repeat (destruct Hcases as [->|Hcases]; [by vm_compute|]).
  subst d. by vm_compute.
Qed.

Lemma pretty_N_go_digits (x : N) (s : string) :
  all_chars is_digit s → all_chars is_digit (pretty_N_go x s).
Proof.
  revert s. induction (N.lt_wf_0 x) as [x _ IH]; intros s Hs.
  destruct (decide (x = 0)%N) as [->|Hx]; [by rewrite pretty_N_go_0|].
  rewrite pretty_N_go_step by lia.
  apply IH; [apply N.div_lt; lia|].
  split; [|done]. unfold is_digit.
  rewrite digit_of_pretty_N_char; [done|]. by apply N.mod_lt.
Qed.

Lemma pretty_N_digits (x : N) : all_chars is_digit (pretty x).
Proof.
  unfold pretty, pretty_N. case_decide.
  - simpl. split; [by exists 0%N|done].
  - by apply pretty_N_go_digits.
Qed.

Lemma str_nat_digits (n : nat) : all_chars is_digit (str_nat n).
Proof. apply pretty_N_digits. Qed.

Lemma pretty_N_go_nonempty (x : N) (s : string) :
  (x ≠ 0)%N ∨ s ≠ "" → pretty_N_go x s ≠ "".
Proof.
  revert s. induction (N.lt_wf_0 x) as [x _ IH]; intros s Hs.
  destruct (decide (x = 0)%N) as [->|Hx].
  - rewrite pretty_N_go_0. by destruct Hs.
  - rewrite pretty_N_go_step by lia. apply IH; [apply N.div_lt; lia|].
    by right.
Qed.

Lemma pretty_N_nonempty (x : N) : pretty x ≠ "".
Proof.
  unfold pretty, pretty_N. case_decide; [done|].
  apply pretty_N_go_nonempty. by left.
Qed.

Lemma parse_digits_pretty_N_go (x : N) (s : string) :
  parse_digits 0 (pretty_N_go x s) = parse_digits x s.
Proof.
  revert s. induction (N.lt_wf_0 x) as [x _ IH]; intros s.
  destruct (decide (x = 0)%N) as [->|Hx]; [by rewrite pretty_N_go_0|].
  rewrite pretty_N_go_step by lia.
  rewrite IH by (apply N.div_lt; lia). simpl.
  rewrite digit_of_pretty_N_char by (by apply N.mod_lt).
  f_equal. pose proof (N.div_mod x 10). lia.
Qed.

Lemma parse_digits_pretty_N (x : N) : parse_digits 0 (pretty x) = Some x.
Proof.
  unfold pretty, pretty_N. case_decide as Hx.
  - by subst.
  - by rewrite parse_digits_pretty_N_go.
Qed.

Lemma is_digit_not_sign (a : ascii) :
  is_digit a → a ≠ dash ∧ a ≠ "+"%char ∧ a ≠ underscore.
Proof.
  intros Hd. repeat split; intros ->; by destruct Hd as [? [=]].
Qed.

Lemma is_digit_not_space (a : ascii) : is_digit a → is_space a = false.
Proof.
  unfold is_digit, digit_of, is_space. intros Hd.
  case_decide as Hr; [|by destruct Hd].
  apply bool_decide_eq_false. intros Hin.
  repeat (apply elem_of_cons in Hin as [Hin|Hin]; [lia|]).
  by apply elem_of_nil in Hin.
Qed.

Lemma rstrip_no_space (s : string) :
  all_chars (λ a, is_space a = false) s → rstrip s = s.
Proof.
  induction s as [|a s IH]; [done|]. intros [Ha Hs]. simpl.
  rewrite (IH Hs). destruct s; [by rewrite Ha|done].
Qed.

(** A string of digits has no blanks to strip. *)
Lemma strip_digits (s : string) :
  all_chars is_digit s → rstrip (lstrip s) = s.
Proof.
  intros Hdig.
  assert (all_chars (λ a, is_space a = false) s) as Hs.
  { eapply all_chars_impl; [|done]. apply is_digit_not_space. }
  assert (lstrip s = s) as ->.
  { destruct s as [|a t]; [done|]. destruct Hs as [Ha _]. simpl.
    by rewrite Ha. }
  by apply rstrip_no_space.
Qed.

Lemma int_of_str_digits (s : string) (n : N) :
  s ≠ "" → all_chars is_digit s → parse_digits 0 s = Some n →
  int_of_str s = Ok (Z.of_N n).
Proof.
  intros Hne Hdig Hparse. unfold int_of_str. rewrite (strip_digits s Hdig).
  destruct s as [|a t]; [done|].
  destruct Hdig as [Ha _]. pose proof Ha as [d Hd].
  apply is_digit_not_sign in Ha as (? & ? & _).
  rewrite !decide_False by done.
  by rewrite Hd, Hparse.
Qed.

(** Blanks around the digits and underscores between them are read as
    Python reads them. *)
Lemma int_of_str_examples :
  int_of_str " 0" = Ok 0%Z ∧ int_of_str "1_000" = Ok 1000%Z ∧
  int_of_str "-12 " = Ok (-12)%Z ∧ int_of_str "+7" = Ok 7%Z ∧
  int_of_str "" = Raise ValueError ∧ int_of_str "_1" = Raise ValueError ∧
  int_of_str "1__0" = Raise ValueError ∧ int_of_str "1_" = Raise ValueError ∧
  int_of_str "- 1" = Raise ValueError ∧ int_of_str "1 2" = Raise ValueError.
Proof. repeat split; vm_compute; reflexivity. Qed.

Lemma int_of_str_nat (n : nat) : int_of_str (str_nat n) = Ok (Z.of_nat n).
Proof.
  unfold str_nat, pretty, pretty_nat.
  rewrite (int_of_str_digits _ (N.of_nat n)).
  - f_equal. lia.
  - apply pretty_N_nonempty.
  - apply pretty_N_digits.
  - apply parse_digits_pretty_N.
Qed.

Lemma str_Z_of_nat (n : nat) : str_Z (Z.of_nat n) = str_nat n.
Proof.
  unfold str_Z, str_nat, pretty at 1, pretty_Z, pretty_nat.
  destruct n as [|n]; [done|]. simpl. done.
Qed.

Lemma str_Z_no_underscore (z : Z) :
  all_chars (λ a, a ≠ underscore) (str_Z z).
Proof.
  assert (∀ x : N, all_chars (λ a, a ≠ underscore) (pretty x)) as HN.
  { intros x. eapply all_chars_impl; [|apply pretty_N_digits].
    intros a Ha. by apply is_digit_not_sign in Ha as (_ & _ & ?). }
  unfold str_Z, pretty, pretty_Z. destruct z as [|p|p].
  - simpl. split; [done|done].
  - apply HN.
  - simpl. split; [done|]. apply HN.
Qed.

(** ** [split] *)

Lemma split_on_none (c : ascii) (s : string) :
  all_chars (λ a, a ≠ c) s → split_on c s = [s].
Proof.
  induction s as [|a s IH]; simpl; [done|].
  intros [Ha Hs]. rewrite decide_False by done. by rewrite IH.
Qed.

Lemma split_on_first (c : ascii) (s1 s2 : string) :
  all_chars (λ a, a ≠ c) s1 →
  split_on c (s1 +:+ String c s2) = s1 :: split_on c s2.
Proof.
  induction s1 as [|a s1 IH]; simpl.
  - intros _. by rewrite decide_True.
  - intros [Ha Hs]. rewrite decide_False by done. by rewrite IH.
Qed.

(** ** Sample identifiers *)

Lemma split_join (i : nat) (token : string) :
  split_on underscore (SampleId.join i token)
  = str_nat i :: split_on underscore token.
Proof.
  unfold SampleId.join. apply (split_on_first underscore (str_nat i) token).
  eapply all_chars_impl; [|apply str_nat_digits].
  intros a Ha. by apply is_digit_not_sign in Ha as (_ & _ & ?).
Qed.

Lemma exp_of_join (i : nat) (token : string) :
  SampleId.exp_of (SampleId.join i token) = Ok (Z.of_nat i).
Proof.
  unfold SampleId.exp_of. rewrite split_join. simpl. apply int_of_str_nat.
Qed.

Lemma decode_join (i : nat) (token : string) :
  all_chars (λ a, a ≠ underscore) token →
  SampleId.decode (SampleId.join i token) = Ok (Z.of_nat i, token).
Proof.
  intros Htok. unfold SampleId.decode. rewrite split_join.
  rewrite (split_on_none _ _ Htok). simpl. by rewrite int_of_str_nat.
Qed.

(** C8. An identifier [str(i) + "_" + str(frame)] decomposes into the
    experiment index [i] and the frame token [str(frame)], and putting
    these two parts together again gives the identifier back. *)
Theorem sample_id_round_trip (i : nat) (frame : Z) :
  SampleId.decode (SampleId.encode i frame) = Ok (Z.of_nat i, str_Z frame) ∧
  SampleId.reencode (Z.of_nat i, str_Z frame) = SampleId.encode i frame.
Proof.
  split.
  - apply (decode_join i (str_Z frame)), str_Z_no_underscore.
  - unfold SampleId.reencode, SampleId.encode. simpl.
    by rewrite str_Z_of_nat.
Qed.

(** ** [set_dataset] *)

(** C9. With ["dataset"] set to ["rat7m+pair"], [set_dataset] raises
    (the read of the unbound local [spec_args]); with any other value it
    returns one of the dataset preparers. *)
Theorem set_dataset_rat7m_pair_raises
    (params : gmap string SetDataset.pyval) (v : SetDataset.pyval) :
  params !! "dataset" = Some v →
  (v = SetDataset.PStr "rat7m+pair" →
     SetDataset.set_dataset params = Raise UnboundLocalError) ∧
  (v ≠ SetDataset.PStr "rat7m+pair" →
     ∃ f, SetDataset.set_dataset params = Ok f).
Proof.
  intros Hv. unfold SetDataset.set_dataset, getitem. rewrite Hv. simpl.
  split.
  - intros ->. by rewrite decide_False, decide_True.
  - intros Hne. repeat case_decide; eauto. done.
Qed.

Lemma set_dataset_rat7m_pair_raises_witness :
  SetDataset.set_dataset {[ "dataset" := SetDataset.PStr "rat7m+pair" ]}
  = Raise UnboundLocalError.
Proof.
  apply (set_dataset_rat7m_pair_raises
           {[ "dataset" := SetDataset.PStr "rat7m+pair" ]}
           (SetDataset.PStr "rat7m+pair")); reflexivity.
Defined.

(** ** [make_dataset_com_inference] *)

#[local] Instance prefix0_inj : Inj (=) (=) ComInference.prefix0.
Proof.
  intros k1 k2 Heq. unfold ComInference.prefix0, str_Z in Heq.
  by apply (inj (String.app "0_")), (inj pretty) in Heq.
Qed.

Lemma rekeyed_lookup {V} (m : gmap Z V) (s : string) (v : V) :
  map_fold (λ key v acc, <[ComInference.prefix0 key := v]> acc)
           (∅ : gmap string V) m !! s = Some v
  ↔ ∃ key, s = ComInference.prefix0 key ∧ m !! key = Some v.
Proof.
  revert s v. apply (map_fold_weak_ind (λ (acc : gmap string V) m, ∀ s v,
    acc !! s = Some v ↔ ∃ key, s = ComInference.prefix0 key ∧ m !! key = Some v)).
  - intros s v. rewrite lookup_empty. split; [done|].
    intros (key & _ & Hk). by rewrite lookup_empty in Hk.
  - intros i x m' acc Hi IH s v.
    destruct (decide (s = ComInference.prefix0 i)) as [->|Hne].
    + rewrite lookup_insert_eq. split.
      * intros [= ->]. exists i. by rewrite lookup_insert_eq.
      * intros (key & Hk%(inj _) & Hv). subst key.
        by rewrite lookup_insert_eq in Hv.
    + rewrite lookup_insert_ne by done. rewrite IH. split.
      * intros (key & -> & Hv). exists key. split; [done|].
        rewrite lookup_insert_ne; [done|]. by intros ->.
      * intros (key & -> & Hv). exists key. split; [done|].
        rewrite lookup_insert_ne in Hv; [done|]. by intros ->.
Qed.

(** C10. After [make_dataset_com_inference], every stored frame index is
    nonnegative: each entry of the input dictionary is found under its
    key prefixed with "0_", with every negative frame index replaced by
    0 and the others as they were; and every sample identifier of the
    partition starts with "0_". *)
Theorem com_inference_frames_nonneg {D : Type} (samples : list Z)
    (datadict0 : gmap Z (ComInference.entry D)) :
  let r := ComInference.make_dataset_com_inference samples datadict0 in
  (∀ s e cam f,
     ComInference.datadict r !! s = Some e →
     ComInference.frames e !! cam = Some f → (0 ≤ f)%Z) ∧
  (∀ key e,
     datadict0 !! key = Some e →
     ∃ e', ComInference.datadict r !! ComInference.prefix0 key = Some e' ∧
           ComInference.data e' = ComInference.data e ∧
           ∀ cam, ComInference.frames e' !! cam
                  = (λ f, if decide (f < 0)%Z then 0%Z else f)
                      <$> ComInference.frames e !! cam) ∧
  (∀ s, s ∈ ComInference.partition_valid r → ∃ t, s = "0_" +:+ t) ∧
  ComInference.partition_valid r = ComInference.prefix0 <$> samples.
Proof.
  intros r. subst r. unfold ComInference.make_dataset_com_inference. simpl.
  repeat split.
  - intros s e cam f [key [-> He]]%rekeyed_lookup Hf.
    rewrite lookup_fmap in He.
    destruct (datadict0 !! key) as [e0|]; [|done]. injection He as <-.
    simpl in Hf. rewrite lookup_fmap in Hf.
    destruct (ComInference.frames e0 !! cam) as [f0|]; [|done].
    injection Hf as <-. unfold ComInference.zero_negative.
    case_decide; lia.
  - intros key e He. exists (ComInference.zero_negative_frames e).
    split; [|split; [done|]].
    + apply rekeyed_lookup. exists key. split; [done|].
      by rewrite lookup_fmap, He.
    + intros cam. simpl. by rewrite lookup_fmap.
  - intros s [f [-> _]]%list_elem_of_fmap. by eexists.
Qed.

(** ** Cache examination *)

Section cache.
Import Cache.

Lemma child_name_Some (p q : path) (n : string) :
  child_name p q = Some n ↔ q = p ++ [n].
Proof.
  unfold child_name. split.
  - destruct (reverse q) as [|m r] eqn:Hq; [done|].
    case_decide as Hr; [|done]. intros [= ->].
    rewrite <-Hr, <-reverse_cons, <-Hq. by rewrite reverse_involutive.
  - intros ->. rewrite reverse_app. simpl.
    by rewrite decide_True by apply reverse_involutive.
Qed.

Lemma listdir_empty fs (p : path) (l : list string) :
  listdir fs p = Ok l → length l = 0 ↔ ∀ n, fs !! (p ++ [n]) = None.
Proof.
  unfold listdir. destruct (fs !! p) as [[|]|]; [done| |done].
  intros [= <-]. rewrite length_zero_iff_nil. split.
  - intros Hnil n. destruct (fs !! (p ++ [n])) as [x|] eqn:Hn; [|done].
    exfalso. apply (elem_of_nil n). rewrite <-Hnil.
    apply list_elem_of_omap. exists (p ++ [n], x). split.
    + by apply elem_of_map_to_list.
    + by apply child_name_Some.
  - intros Hnone. apply elem_of_nil_inv. intros n Hin.
    apply list_elem_of_omap in Hin as ([q x] & Hqx & Hc).
    apply elem_of_map_to_list in Hqx. apply child_name_Some in Hc.
    simpl in Hc. subst q. by rewrite Hnone in Hqx.
Qed.

Lemma makedirs_frame fs (p : path) (ok : bool) fs' (q : path) :
  makedirs fs p ok = Ok fs' → ¬ q `prefix_of` p → fs' !! q = fs !! q.
Proof.
  unfold makedirs. intros Hrun Hq.
  destruct (fs !! p) as [[|]|]; [done| |].
  { destruct ok; [|done]. by injection Hrun as <-. }
  revert Hrun. apply (for_each_invariant (λ acc, acc !! q = fs !! q)); [|done].
  intros acc r acc' Hr Hacc Hstep.
  destruct (acc !! r) as [[|]|] eqn:Hlook; [done|by injection Hstep as <-|].
  injection Hstep as <-. rewrite lookup_insert_ne; [done|].
  intros ->. apply Hq. unfold prefixes in Hr.
  apply list_elem_of_fmap in Hr as (n & -> & _). apply prefix_take.
Qed.

Lemma folder_prefix_clash (d1 d2 r r' : path) :
  length d1 = length d2 → (d1 ++ r) `prefix_of` (d2 ++ r') → d1 = d2.
Proof.
  intros Hlen [k Hk]. rewrite <-(assoc _) in Hk.
  by apply app_inj_1 in Hk as [-> _].
Qed.

Lemma examine_subdir_spec (e : Z) (d : path) (st st' : exam) (dir : string) :
  npydir st !! e = Some d →
  examine_subdir e st dir = Ok st' →
  npydir st' = npydir st ∧
  (∀ q, ¬ q `prefix_of` d ++ [dir] → fsys st' !! q = fsys st !! q) ∧
  (dir_flag (fsys st) (d ++ [dir]) ∧
     missing_npydir st' = <[e := d]> (missing_npydir st)
   ∨ ¬ dir_flag (fsys st) (d ++ [dir]) ∧ st' = st).
Proof.
  intros Hd. unfold examine_subdir, getitem. rewrite Hd. simpl.
  intros (empty & Hempty & Hrest)%bind_Ok.
  assert (empty = true ↔ dir_flag (fsys st) (d ++ [dir])) as Hflag.
  { unfold path_exists, dir_flag in *. case_bool_decide as Hex; simpl in *.
    - apply bind_Ok in Hempty as (l & Hl & [= <-]).
      rewrite bool_decide_eq_true, (listdir_empty _ _ _ Hl).
      destruct Hex as [x Hx]. rewrite Hx.
      split; [by right|by intros [?|?]].
    - injection Hempty as <-. rewrite <-eq_None_not_Some in Hex. tauto. }
  destruct empty.
  - unfold flag_missing, getitem in Hrest. rewrite Hd in Hrest. simpl in Hrest.
    apply bind_Ok in Hrest as (fs' & Hmk & [= <-]). simpl.
    split; [done|]. split.
    + intros q Hq. by apply (makedirs_frame _ _ _ _ _ Hmk).
    + left. split; [by apply Hflag|done].
  - injection Hrest as <-. split; [done|]. split; [done|].
    right. split; [|done]. rewrite <-Hflag. done.
Qed.

Lemma dir_flag_frame fs fs' (p : path) :
  fs' !! p = fs !! p → (∀ n, fs' !! (p ++ [n]) = fs !! (p ++ [n])) →
  dir_flag fs' p ↔ dir_flag fs p.
Proof.
  intros Hp Hc. unfold dir_flag. rewrite Hp.
  split; (intros [?|Hn]; [by left|right; intros n]).
  - by rewrite <-Hc.
  - by rewrite Hc.
Qed.

Lemma sibling_not_prefix (d r : path) (dir dir' : string) :
  dir ≠ dir' → ¬ (d ++ dir :: r) `prefix_of` (d ++ [dir']).
Proof.
  intros Hne [k Hk]. rewrite <-(assoc _) in Hk.
  apply app_inv_head in Hk. simpl in Hk. by injection Hk as ->.
Qed.

(** The subdirectory loop over [dirs]: the folder is flagged exactly
    when one of the subdirectories is absent or empty beforehand. *)
Lemma examine_subdirs_spec (e : Z) (d : path) (dirs : list string) (st st' : exam) :
  NoDup dirs →
  npydir st !! e = Some d →
  for_each (examine_subdir e) dirs st = Ok st' →
  npydir st' = npydir st ∧
  (∀ q, (∀ dir, dir ∈ dirs → ¬ q `prefix_of` d ++ [dir]) →
        fsys st' !! q = fsys st !! q) ∧
  ((∃ dir, dir ∈ dirs ∧ dir_flag (fsys st) (d ++ [dir])) ∧
     missing_npydir st' = <[e := d]> (missing_npydir st)
   ∨ (∀ dir, dir ∈ dirs → ¬ dir_flag (fsys st) (d ++ [dir])) ∧
     missing_npydir st' = missing_npydir st).
Proof.
  intros Hnd. revert st. induction Hnd as [|dir dirs Hnotin Hnd IH];
    intros st Hd Hrun; simpl in Hrun.
  { injection Hrun as <-. split; [done|]. split; [done|]. right.
    split; [|done]. by intros dir Hdir%elem_of_nil. }
  apply bind_Ok in Hrun as (st1 & Hstep & Hrest).
  destruct (examine_subdir_spec e d st st1 dir Hd Hstep) as (Hnpy1 & Hfs1 & Hcase).
  assert (npydir st1 !! e = Some d) as Hd1 by (by rewrite Hnpy1).
  destruct (IH st1 Hd1 Hrest) as (Hnpy' & Hfs' & Hcase').
  assert (∀ dir', dir' ∈ dirs →
            dir_flag (fsys st1) (d ++ [dir']) ↔ dir_flag (fsys st) (d ++ [dir']))
    as Hsame.
  { intros dir' Hin'. assert (dir' ≠ dir) as Hne by (by intros ->).
    apply dir_flag_frame.
    - apply Hfs1. apply (sibling_not_prefix d [] dir' dir Hne).
    - intros n. apply Hfs1. rewrite <-(assoc _). simpl.
      apply (sibling_not_prefix d [n] dir' dir Hne). }
  split; [congruence|]. split.
  { intros q Hq. rewrite Hfs'.
    - apply Hfs1, Hq. by left.
    - intros dir' Hin'. apply Hq. by right. }
  destruct Hcase as [[Hflag Hm1]|[Hflag ->]];
    destruct Hcase' as [[(dir' & Hin' & Hflag') Hm']|[Hnone Hm']].
  - left. split; [exists dir; split; [by left|done]|].
    by rewrite Hm', Hm1, insert_insert_eq.
  - left. split; [exists dir; split; [by left|done]|]. by rewrite Hm', Hm1.
  - left. split; [|done]. exists dir'. split; [by right|done].
  - right. split; [|done]. intros dir' [->|Hin']%elem_of_cons; [done|].
    by apply Hnone.
Qed.
Lemma create_subdirs_spec (e : Z) (d : path) (dirs : list string) (st st' : exam) :
  npydir st !! e = Some d →
  for_each (create_subdir e) dirs st = Ok st' →
  npydir st' = npydir st ∧ missing_npydir st' = missing_npydir st ∧
  (∀ q, (∀ dir, dir ∈ dirs → ¬ q `prefix_of` d ++ [dir]) →
        fsys st' !! q = fsys st !! q).
Proof.
  intros Hd Hrun. revert Hrun.
  apply (for_each_invariant (λ s, npydir s = npydir st ∧
    missing_npydir s = missing_npydir st ∧
    ∀ q, (∀ dir, dir ∈ dirs → ¬ q `prefix_of` d ++ [dir]) →
         fsys s !! q = fsys st !! q)); [|done].
  intros s dir s' Hdir (Hn & Hm & Hf) Hstep.
  unfold create_subdir, getitem in Hstep. rewrite Hn, Hd in Hstep.
  simpl in Hstep. apply bind_Ok in Hstep as (fs' & Hmk & [= <-]). simpl.
  split; [done|]. split; [done|]. intros q Hq.
  rewrite (makedirs_frame _ _ _ _ _ Hmk); auto.
Qed.

Lemma flagged_frame fs fs' (d : path) :
  (∀ r, fs' !! (d ++ r) = fs !! (d ++ r)) → flagged fs' d ↔ flagged fs d.
Proof.
  intros Hsame. unfold flagged.
  assert (fs' !! d = fs !! d) as -> by (by rewrite <-(app_nil_r d)).
  assert (∀ dir, dir_flag fs' (d ++ [dir]) ↔ dir_flag fs (d ++ [dir])) as Hdir.
  { intros dir. apply dir_flag_frame; [done|]. intros n.
    by rewrite <-(assoc _). }
  split; (intros [?|(dir & ? & ?)]; [by left|right; exists dir]);
    by rewrite ?Hdir in *.
Qed.

Lemma NoDup_TO_BE_EXAMINED : NoDup TO_BE_EXAMINED.
Proof. unfold TO_BE_EXAMINED, NPY_DIRNAMES. by apply NoDup_ListNoDup; repeat (constructor; [simpl; intuition discriminate|]); constructor. Qed.

Lemma examine_dir_spec (st st' : exam) (k : nat) (d : path) :
  examine_dir st (k, d) = Ok st' →
  npydir st' = <[Z.of_nat k := d]> (npydir st) ∧
  (∀ q, (∀ dir, dir ∈ TO_BE_EXAMINED → ¬ q `prefix_of` d ++ [dir]) →
        fsys st' !! q = fsys st !! q) ∧
  (flagged (fsys st) d ∧
     missing_npydir st' = <[Z.of_nat k := d]> (missing_npydir st)
   ∨ ¬ flagged (fsys st) d ∧ missing_npydir st' = missing_npydir st).
Proof.
  intros Hrun. unfold examine_dir in Hrun.
  cbn [fst snd npydir fsys missing_npydir] in Hrun.
  apply bind_Ok in Hrun as (d' & Hd'%getitem_Ok & Hrun).
  rewrite lookup_insert_eq in Hd'. injection Hd' as <-.
  unfold path_exists in Hrun. case_bool_decide as Hex; cbn [negb] in Hrun.
  - apply examine_subdirs_spec with (d := d) in Hrun as (Hn & Hf & Hcase);
      [|apply NoDup_TO_BE_EXAMINED|by cbn; rewrite lookup_insert_eq].
    cbn [fsys npydir missing_npydir] in *. split; [done|]. split; [done|].
    destruct Hex as [x Hx].
    destruct Hcase as [[Hflag Hm]|[Hflag Hm]]; [left|right]; (split; [|done]).
    + by right.
    + intros [Habs|(dir & Hdir & Hfl)]; [congruence|]. by apply (Hflag dir).
  - apply bind_Ok in Hrun as (st1 & Hfl & Hrun).
    unfold flag_missing in Hfl. apply bind_Ok in Hfl as (d' & Hd'%getitem_Ok & [= <-]).
    cbn [npydir] in Hd'. rewrite lookup_insert_eq in Hd'. injection Hd' as <-.
    apply create_subdirs_spec with (d := d) in Hrun as (Hn & Hm & Hf);
      [|by cbn; rewrite lookup_insert_eq].
    cbn [fsys npydir missing_npydir] in *. split; [done|]. split; [done|].
    left. split; [|done]. left. by apply eq_None_not_Some.
Qed.

(** The first loop, over the folders [l] of the experiments 0, 1, ...:
    the experiments put into [missing_npydir] are those whose folder is
    flagged in the file system the examination started from. *)
Lemma examine_dirs_spec (L : nat) fs (l : list path) (st : exam) :
  NoDup l → (∀ d, d ∈ l → length d = L) →
  for_each examine_dir (imap (λ e d, (e, d)) l) (Exam fs ∅ ∅) = Ok st →
  (∀ e d, npydir st !! e = Some d ↔ ∃ i, e = Z.of_nat i ∧ l !! i = Some d) ∧
  (∀ e, e ∈ dom (missing_npydir st) ↔
        ∃ i d, e = Z.of_nat i ∧ l !! i = Some d ∧ flagged fs d) ∧
  (∀ q, (∀ d dir, d ∈ l → dir ∈ TO_BE_EXAMINED → ¬ q `prefix_of` d ++ [dir]) →
        fsys st !! q = fs !! q).
Proof.
  revert st. induction l as [|d l IH] using rev_ind; intros st Hnd Hlen Hrun.
  { simpl in Hrun. injection Hrun as <-. simpl. split; [|split].
    - intros e d. rewrite lookup_empty. split; [done|]. by intros (i & _ & ?).
    - intros e. rewrite dom_empty_L, elem_of_empty. split; [done|].
      by intros (i & ? & _ & ? & _).
    - done. }
  rewrite imap_app, for_each_app in Hrun. simpl in Hrun.
  apply bind_Ok in Hrun as (st0 & Hrun0 & Hstep).
  rewrite Nat.add_0_r in Hstep.
  apply bind_Ok in Hstep as (st1 & Hstep & [= <-]).
  apply NoDup_app in Hnd as (Hnd & Hnotin & _).
  destruct (IH st0 Hnd) as (Hn0 & Hm0 & Hf0); [|done|].
  { intros d' Hd'. apply Hlen, elem_of_app. by left. }
  apply examine_dir_spec in Hstep as (Hn & Hf & Hcase).
  assert (flagged (fsys st0) d ↔ flagged fs d) as Hflag.
  { apply flagged_frame. intros r. apply Hf0. intros d' dir Hd' _ Hpre.
    apply folder_prefix_clash in Hpre.
    - subst d'. by apply (Hnotin d), list_elem_of_singleton.
    - rewrite !Hlen; [done|..]; apply elem_of_app;
        [by left|right; by apply list_elem_of_singleton]. }
  assert (∀ i d', (l ++ [d]) !! i = Some d' ↔
            l !! i = Some d' ∨ i = length l ∧ d' = d) as Hsnoc.
  { intros i d'. destruct (decide (i < length l)) as [Hi|Hi].
    - rewrite lookup_app_l by done. split; [by left|].
      intros [?|[-> _]]; [done|lia].
    - rewrite lookup_app_r by lia.
      destruct (decide (i = length l)) as [->|Hne].
      + rewrite Nat.sub_diag. simpl. split.
        * intros [= <-]. by right.
        * intros [Hl|[_ ->]]; [|done].
          apply lookup_lt_Some in Hl. lia.
      + split.
        * intros Hl. apply lookup_lt_Some in Hl. simpl in Hl. lia.
        * intros [Hl|[-> _]]; [|done]. apply lookup_lt_Some in Hl. lia. }
  split; [|split].
  - intros e d'. rewrite Hn. destruct (decide (e = Z.of_nat (length l))) as [->|Hne].
    + rewrite lookup_insert_eq. split.
      * intros [= <-]. exists (length l). split; [done|].
        apply Hsnoc. by right.
      * intros (i & Hi & Hl). apply Nat2Z.inj in Hi. subst i.
        apply Hsnoc in Hl as [Hl|[_ ->]]; [|done].
        apply lookup_lt_Some in Hl. lia.
    + rewrite lookup_insert_ne by done. rewrite Hn0. split.
      * intros (i & -> & Hl). exists i. split; [done|]. apply Hsnoc. by left.
      * intros (i & -> & Hl). exists i. split; [done|].
        apply Hsnoc in Hl as [Hl|[-> _]]; done.
  - intros e.
    assert (e ∈ dom (missing_npydir st1) ↔
            e ∈ dom (missing_npydir st0) ∨ e = Z.of_nat (length l) ∧ flagged fs d)
      as ->.
    { destruct Hcase as [[Hfl ->]|[Hfl ->]].
      - rewrite dom_insert_L, elem_of_union, elem_of_singleton.
        apply Hflag in Hfl. tauto.
      - rewrite Hflag in Hfl. tauto. }
    rewrite Hm0. split.
    + intros [(i & d' & -> & Hl & Hfl)|[-> Hfl]].
      * exists i, d'. split; [done|]. split; [|done]. apply Hsnoc. by left.
      * exists (length l), d. split; [done|]. split; [|done].
        apply Hsnoc. by right.
    + intros (i & d' & -> & Hl & Hfl). apply Hsnoc in Hl as [Hl|[-> ->]].
      * left. by exists i, d'.
      * by right.
  - intros q Hq. rewrite Hf, Hf0; [done|..].
    + intros d' dir Hd'. apply Hq, elem_of_app. by left.
    + intros dir. apply Hq, elem_of_app. right. by apply list_elem_of_singleton.
Qed.

Lemma decode_exp_of (samp : string) (e : Z) (tok : string) :
  SampleId.decode samp = Ok (e, tok) → SampleId.exp_of samp = Ok e.
Proof.
  unfold SampleId.decode, SampleId.exp_of.
  intros (e' & He & Hrest)%bind_Ok.
  apply bind_Ok in Hrest as (tok' & _ & [= <- <-]). done.
Qed.

Lemma missing_by_dir_spec (st : exam) (samples m0 : list string) :
  missing_by_dir st samples = Ok m0 →
  ∀ s, s ∈ m0 ↔
       s ∈ samples ∧ ∃ e, SampleId.exp_of s = Ok e ∧ e ∈ dom (missing_npydir st).
Proof.
  revert m0. induction samples as [|samp samples IH]; intros m0 Hrun s;
    simpl in Hrun.
  { injection Hrun as <-. split; [by intros ?%elem_of_nil|].
    by intros [?%elem_of_nil _]. }
  apply bind_Ok in Hrun as (b & Hb & Hrun).
  apply bind_Ok in Hrun as (tl & Htl & [= <-]).
  unfold in_missing_dir in Hb. apply bind_Ok in Hb as (e & He & [= <-]).
  specialize (IH tl Htl s). rewrite elem_of_cons.
  case_bool_decide as Hdom.
  - rewrite elem_of_cons, IH. split.
    + intros [->|[? ?]]; [|tauto]. split; [by left|]. by exists e.
    + intros [[->|?] ?]; tauto.
  - rewrite IH. split; [tauto|].
    intros [[->|?] (e' & He' & Hdom')]; [|by eauto].
    rewrite He in He'. by injection He' as <-.
Qed.

Lemma examine_samples_spec (l : list string) (st st' : exam)
    (m m' : list string) :
  for_each examine_sample l (st, m) = Ok (st', m') →
  fsys st' = fsys st ∧ npydir st' = npydir st ∧
  ∀ s, s ∈ m' ↔
       s ∈ m ∨ s ∈ l ∧ ∃ e tok d, SampleId.decode s = Ok (e, tok) ∧
                 npydir st !! e = Some d ∧ fsys st !! image_file d tok = None.
Proof.
  revert st m. induction l as [|samp l IH]; intros st m Hrun; simpl in Hrun.
  { injection Hrun as <- <-. split; [done|]. split; [done|]. intros s.
    split; [by left|]. by intros [?|[?%elem_of_nil _]]. }
  apply bind_Ok in Hrun as ([st1 m1] & Hstep & Hrest).
  apply IH in Hrest as (Hfs & Hnpy & Hiff). clear IH.
  simpl in Hstep. apply bind_Ok in Hstep as ([e tok] & Hdec & Hstep).
  apply bind_Ok in Hstep as (d & Hd%getitem_Ok & Hstep).
  unfold path_exists in Hstep. case_bool_decide as Hex; simpl in Hstep.
  - injection Hstep as <- <-. split; [done|]. split; [done|].
    intros s. rewrite Hiff, elem_of_cons. split; [tauto|].
    intros [?|[[->|?] (e' & tok' & d' & Hdec' & Hd' & Hnone)]]; [tauto| |by eauto 10].
    rewrite Hdec in Hdec'. injection Hdec' as <- <-.
    rewrite Hd in Hd'. injection Hd' as <-. rewrite Hnone in Hex.
    by destruct Hex as [? [=]].
  - unfold flag_missing in Hstep.
    apply bind_Ok in Hstep as (st2 & Hfl & [= <- <-]).
    apply bind_Ok in Hfl as (d' & _ & [= <-]). simpl in *.
    split; [done|]. split; [done|].
    intros s. rewrite Hiff, elem_of_app, list_elem_of_singleton, elem_of_cons.
    apply eq_None_not_Some in Hex. split; [|tauto].
    intros [[?| ->]|?]; [tauto| |tauto].
    right. split; [by left|]. by exists e, tok, d.
Qed.

(** The examination as a whole, for folders of one depth that are
    pairwise different. *)
Lemma examine_missing_iff (L : nat) (folders : list path)
    (samples : list string) fs (st : exam) (missing : list string) :
  NoDup folders → (∀ d, d ∈ folders → length d = L) →
  examine folders samples fs = Ok (st, missing) →
  ∀ samp, samp ∈ missing ↔
    samp ∈ samples ∧
    ∃ i d, SampleId.exp_of samp = Ok (Z.of_nat i) ∧ folders !! i = Some d ∧
      (flagged fs d ∨
       ∃ tok, SampleId.decode samp = Ok (Z.of_nat i, tok) ∧
              fs !! image_file d tok = None).
Proof.
  intros Hnd Hlen Hrun samp. unfold examine in Hrun.
  apply bind_Ok in Hrun as (st1 & Hdirs & Hrun).
  apply bind_Ok in Hrun as (m0 & Hm0 & Hrun).
  apply bind_Ok in Hrun as ([st2 m2] & Hsamples & [= <- <-]).
  apply (examine_dirs_spec L) in Hdirs as (Hnpy & Hmiss & Hfs); [|done..].
  pose proof (missing_by_dir_spec _ _ _ Hm0) as Hm0iff.
  apply examine_samples_spec in Hsamples as (_ & _ & Hiff).
  assert (∀ i d tok, folders !! i = Some d →
            fsys st1 !! image_file d tok = fs !! image_file d tok) as Himg.
  { intros i d tok Hd. apply Hfs. intros d' dir Hd' _ Hpre.
    apply prefix_length in Hpre. unfold image_file in Hpre.
    rewrite !length_app in Hpre. simpl in Hpre.
    rewrite (Hlen d), (Hlen d') in Hpre; [lia|done|].
    by eapply list_elem_of_lookup_2. }
  rewrite elem_of_sorted, Hiff, Hm0iff. split.
  - intros [[Hin (e & He & Hdom)]|[Hin (e & tok & d & Hdec & Hd & Hnone)]].
    + split; [done|]. apply Hmiss in Hdom as (i & d & -> & Hd & Hfl).
      exists i, d. eauto.
    + apply elem_of_elements, elem_of_difference in Hin as [Hin _].
      apply elem_of_list_to_set in Hin. split; [done|].
      apply Hnpy in Hd as (i & -> & Hd). exists i, d.
      split; [by eapply decode_exp_of|]. split; [done|]. right.
      exists tok. split; [done|]. by rewrite <-(Himg i).
  - intros [Hin (i & d & He & Hd & Hcase)].
    destruct (decide (samp ∈ m0)) as [Hm|Hm].
    { left. by apply Hm0iff. }
    destruct Hcase as [Hfl|(tok & Hdec & Hnone)].
    + left. split; [done|]. exists (Z.of_nat i). split; [done|].
      apply Hmiss. by exists i, d.
    + right. split.
      * apply elem_of_elements, elem_of_difference.
        split; by rewrite elem_of_list_to_set.
      * exists (Z.of_nat i), tok, d. split; [done|]. split.
        -- apply Hnpy. by exists i.
        -- by rewrite (Himg i).
Qed.
End cache.

Lemma rat7m_folders_NoDup (root : list string) :
  NoDup (Cache.rat7m_folders root).
Proof.
  unfold Cache.rat7m_folders. apply NoDup_fmap_2.
  - intros n1 n2 Heq. apply app_inv_head in Heq. by injection Heq.
  - unfold Cache.rat7m_exps. apply NoDup_ListNoDup. simpl.
    repeat (constructor; [simpl; intuition discriminate|]). constructor.
Qed.

Lemma rat7m_folders_length (root d : list string) :
  d ∈ Cache.rat7m_folders root → length d = length root + 2.
Proof.
  unfold Cache.rat7m_folders. intros (n & -> & _)%list_elem_of_fmap.
  by rewrite length_app.
Qed.

Lemma returned_snd_Ok {A B} (r : result (A * B)) (b : B) :
  returned_snd r = Ok b → ∃ a, r = Ok (a, b).
Proof. destruct r as [[a b']|e]; simpl; [|done]. intros [= ->]. by exists a. Qed.

(** The same for the examination of [make_pair], when the folders of
    the animals are pairwise different. *)
Lemma pair_examine_missing_iff (root : list string) (exps : list string)
    (samples : list string) (fs : gmap (list string) Cache.node)
    (st : Cache.exam) (missing : list string) :
  NoDup (Cache.pair_folders root exps) →
  Cache.make_pair_examine root exps samples fs = Ok (st, missing) →
  ∀ samp, samp ∈ missing ↔
    samp ∈ samples ∧
    ∃ i d, SampleId.exp_of samp = Ok (Z.of_nat i) ∧
           Cache.pair_folders root exps !! i = Some d ∧
      (Cache.flagged fs d ∨
       ∃ tok, SampleId.decode samp = Ok (Z.of_nat i, tok) ∧
              fs !! Cache.image_file d tok = None).
Proof.
  intros Hnd Hrun.
  apply (examine_missing_iff (length root + 2) _ _ _ st); [done| |done].
  intros d (name & Hd & _)%list_elem_of_bind.
  apply list_elem_of_fmap in Hd as (j & -> & _). by rewrite length_app.
Qed.

(** C4, as stated, fails: in [cache_fs] the sample "0_5" has only an
    empty image-volume file and neither a grid-volume nor a target
    file, and the examination of [make_rat7m] reports no sample
    missing. *)
Lemma cache_triplet_counterexample :
  cache_fs !! (cache_folder ++ ["image_volumes"; "0_5.npy"])
    = Some (Cache.File 0) ∧
  cache_fs !! (cache_folder ++ ["grid_volumes"; "0_5.npy"]) = None ∧
  cache_fs !! (cache_folder ++ ["targets"; "0_5.npy"]) = None ∧
  ∃ st, Cache.make_rat7m_examine cache_root ["0_5"; "0_9"] cache_fs
        = Ok (st, []).
Proof.
  split; [by vm_compute|]. split; [by vm_compute|]. split; [by vm_compute|].
  apply returned_snd_Ok. by vm_compute.
Qed.

(** C4, amended.  The examination of [make_rat7m] reports a sample
    missing exactly when the folder of its experiment is flagged (the
    folder is absent, or one of its three subdirectories is absent or
    has no entry) or the sample has no file in the image-volume
    namespace; the grid-volume and target files of the sample and the
    size of its files are not looked at. *)
Theorem rat7m_examine_missing_iff (root : list string) (samples : list string)
    (fs : gmap (list string) Cache.node) (st : Cache.exam)
    (missing : list string) :
  Cache.make_rat7m_examine root samples fs = Ok (st, missing) →
  ∀ samp, samp ∈ missing ↔
    samp ∈ samples ∧
    ∃ i d, SampleId.exp_of samp = Ok (Z.of_nat i) ∧
           Cache.rat7m_folders root !! i = Some d ∧
      (Cache.flagged fs d ∨
       ∃ tok, SampleId.decode samp = Ok (Z.of_nat i, tok) ∧
              fs !! Cache.image_file d tok = None).
Proof.
  intros Hrun. apply (examine_missing_iff (length root + 2) _ _ _ st); [| |done].
  - apply rat7m_folders_NoDup.
  - apply rat7m_folders_length.
Qed.

Lemma rat7m_examine_missing_iff_witness :
  "0_7" ∈ ["0_7"] ↔
    "0_7" ∈ ["0_5"; "0_7"] ∧
    ∃ i d, SampleId.exp_of "0_7" = Ok (Z.of_nat i) ∧
           Cache.rat7m_folders cache_root !! i = Some d ∧
      (Cache.flagged cache_fs d ∨
       ∃ tok, SampleId.decode "0_7" = Ok (Z.of_nat i, tok) ∧
              cache_fs !! Cache.image_file d tok = None).
Proof.
  assert (∃ st, Cache.make_rat7m_examine cache_root ["0_5"; "0_7"] cache_fs
                = Ok (st, ["0_7"])) as [st Hrun].
  { apply returned_snd_Ok. by vm_compute. }
  exact (rat7m_examine_missing_iff cache_root ["0_5"; "0_7"] cache_fs st
           ["0_7"] Hrun "0_7").
Defined.

(** ** The PAIR loader *)

Section pair_loader.
Import PairLoader.

Lemma map_result_lookup {A B} (f : A → result B) (l : list A) (l' : list B)
    (i : nat) (y : B) :
  map_result f l = Ok l' → l' !! i = Some y →
  ∃ x, l !! i = Some x ∧ f x = Ok y.
Proof.
  revert l' i. induction l as [|x l IH]; intros l' i Hrun Hy; simpl in Hrun.
  { injection Hrun as <-. by rewrite lookup_nil in Hy. }
  apply bind_Ok in Hrun as (y0 & Hy0 & Hrun).
  apply bind_Ok in Hrun as (ys & Hys & [= <-]).
  destruct i as [|i]; simpl in *.
  - injection Hy as <-. by exists x.
  - by apply (IH ys).
Qed.

Variable Q : pose → Prop.

#[local] Abbreviation conv_inv := (conv_inv Q).

Lemma store_animal_spec (samples0 : list string) (expid : nat)
    (pose3d : list pose) (com3d : list vec3) (frames : list nat)
    (st st' : conv) :
  (∀ i p, pose3d !! i = Some p → Q p) →
  conv_inv samples0 st →
  store_animal expid pose3d com3d frames st = Ok st' →
  conv_inv samples0 st' ∧ count st' = count st ∧ samples st' = samples st.
Proof.
  intros Hpose Hinv Hrun. revert Hrun.
  apply (for_each_invariant (λ s, conv_inv samples0 s ∧ count s = count st ∧
                                  samples s = samples st)); [|done].
  intros s frame s' _ ([Hs Hdd] & Hc & Hsm) Hstep.
  apply bind_Ok in Hstep as (p & Hp%list_getitem_Ok & Hstep).
  apply bind_Ok in Hstep as (c & _ & [= <-]). simpl.
  split; [|done]. split; [done|]. simpl. intros s0 p0.
  destruct (decide (s0 = SampleId.encode expid (Z.of_nat frame))) as [->|Hne].
  - rewrite lookup_insert_eq. intros [= <-]. by eapply Hpose.
  - rewrite lookup_insert_ne by done. apply Hdd.
Qed.

Lemma convert_candidate_spec (samples0 : list string) (merge_pair : bool)
    (total_n n n' : nat) (st st' : conv) (can : candidate) :
  (∀ src p, src ∈ absolutePosition_an1 can ∨ src ∈ absolutePosition_an2 can →
            stored_from merge_pair src p → Q p) →
  conv_inv samples0 st →
  convert_candidate merge_pair total_n (n, st) can = Ok (n', st') →
  conv_inv samples0 st'.
Proof.
  intros Hcan Hinv Hrun. unfold convert_candidate in Hrun.
  case_decide as Hgood.
  { injection Hrun as <- <-. done. }
  apply bind_Ok in Hrun as (pose3d1 & H1 & Hrun).
  apply bind_Ok in Hrun as (pose3d2 & H2 & Hrun).
  apply bind_Ok in Hrun as (frames & _ & Hrun).
  apply bind_Ok in Hrun as (st1 & Hs1 & Hrun).
  apply bind_Ok in Hrun as (st2 & Hs2 & [= <- <-]).
  assert (∀ i p, pose3d1 !! i = Some p → Q p) as HQ1.
  { intros i p Hp. destruct merge_pair.
    - destruct (map_result_lookup _ _ _ _ _ H1 Hp) as (src & Hsrc & Hto).
      apply (Hcan src); [left; by eapply list_elem_of_lookup_2|done].
    - injection H1 as <-.
      apply (Hcan p); [left; by eapply list_elem_of_lookup_2|done]. }
  assert (∀ i p, pose3d2 !! i = Some p → Q p) as HQ2.
  { intros i p Hp. destruct merge_pair.
    - destruct (map_result_lookup _ _ _ _ _ H2 Hp) as (src & Hsrc & Hto).
      apply (Hcan src); [right; by eapply list_elem_of_lookup_2|done].
    - injection H2 as <-.
      apply (Hcan p); [right; by eapply list_elem_of_lookup_2|done]. }
  apply (store_animal_spec samples0) in Hs1 as (Hinv1 & Hc1 & Hsm1); [|done|].
  - apply (store_animal_spec samples0) in Hs2 as ([He2 Hdd2] & _ & _);
      [|done..].
    split; [|done]. simpl. done.
  - destruct Hinv as [(extra & Hextra & Hall) Hdd]. split; [|done]. simpl.
    eexists. rewrite Hextra, <-(assoc _). split; [done|].
    rewrite !Forall_app. split; [done|].
    split; apply Forall_fmap, Forall_true; intros f; by eexists _, _.
Qed.

Lemma convert_pair_spec (merge_pair : bool) (experiments : list (list candidate))
    (total_n count0 : nat) (samples0 : list string)
    (datadict_3d0 : gmap string pose) (com3d_dict0 : gmap string vec3)
    (st : conv) :
  (∀ s p, datadict_3d0 !! s = Some p → Q p) →
  (∀ found can src p, found ∈ experiments → can ∈ found →
     src ∈ absolutePosition_an1 can ∨ src ∈ absolutePosition_an2 can →
     stored_from merge_pair src p → Q p) →
  _convert_pair_to_label3d merge_pair experiments total_n count0 samples0
    datadict_3d0 com3d_dict0 = Ok st →
  conv_inv samples0 st.
Proof.
  intros Hdd0 Hsrc. unfold _convert_pair_to_label3d.
  apply (for_each_invariant (conv_inv samples0)).
  - intros s found s' Hfound Hinv Hstep.
    apply bind_Ok in Hstep as ([n1 s1] & Hcands & [= <-]).
    revert Hcands.
    apply (for_each_invariant (λ acc, conv_inv samples0 acc.2)); [|done].
    intros [n a] can [n' a'] Hcan Ha Hstep. simpl in *.
    apply (convert_candidate_spec samples0) in Hstep; [done| |done].
    intros src p Hin. apply (Hsrc found can); [done| |done].
    apply elem_of_take in Hcan as (i & Hi & _).
    by eapply list_elem_of_lookup_2.
  - split; [|done]. exists []. by rewrite app_nil_r.
Qed.
End pair_loader.

(** *** The padding to 20 keypoints *)

Lemma andb_idem_l (a b : bool) : a && (a && b) = a && b.
Proof. by destruct a. Qed.

(** A pose that [to_r7m] returns has 20 keypoints, is never fully valid,
    and is entirely unset only when the row it comes from is. *)
Lemma to_r7m_spec (src p : pose) :
  PairLoader.to_r7m src = Ok p →
  length p = 20 ∧ fully_valid p = false ∧ isnan_all p = isnan_all src ∧
  (∀ i, i ∈ [10; 11; 14; 15; 16; 17; 18; 19] → p !! i = Some nan_keypoint) ∧
  (length src = 12 →
   ∀ j i, PairLoader.pair_index !! j = Some i → p !! i = src !! j).
Proof.
  unfold PairLoader.to_r7m. case_decide as Hlen.
  - intros [= <-].
    do 12 (destruct src as [|? src]; [done|]). destruct src; [|done].
    simpl. split; [done|]. split; [|split; [|split]].
    + by rewrite !andb_false_r.
    + simpl. by rewrite !andb_true_r.
    + intros i Hi. set_unfold in Hi.
      by repeat (destruct Hi as [->|Hi]; [done|]).
    + intros _ j i Hj. do 12 (destruct j as [|j]; [by injection Hj as <-|]).
      done.
  - destruct src as [|k [|? ?]]; [done| |done]. intros [= <-].
    simpl. split; [done|]. split; [|split; [|split]].
    + by rewrite !andb_false_r.
    + simpl. rewrite !andb_true_r. by rewrite !andb_idem_l, !andb_diag.
    + intros i Hi. set_unfold in Hi.
      by repeat (destruct Hi as [->|Hi]; [done|]).
    + done.
Qed.

Lemma make_pair_inv (Q : pose → Prop) (merge_pair : bool)
    (experiments_train experiments_test : list (list PairLoader.candidate))
    (r : PairLoader.loaded) :
  (∀ src p, source_row (experiments_train ++ experiments_test) src →
            stored_from merge_pair src p → Q p) →
  PairLoader.make_pair merge_pair experiments_train experiments_test = Ok r →
  ∃ st1 st2,
    PairLoader.parts r
      = Partition (sorted (PairLoader.samples st1))
          (sorted (elements
             ((list_to_set (PairLoader.samples st2) : gset string)
                ∖ list_to_set (sorted (PairLoader.samples st1))))) ∧
    PairLoader.all_samples r = PairLoader.samples st2 ∧
    PairLoader.labels_3d r = PairLoader.datadict_3d st2 ∧
    conv_inv Q [] st1 ∧ conv_inv Q (PairLoader.samples st1) st2.
Proof.
  intros HQ Hrun. unfold PairLoader.make_pair in Hrun.
  apply bind_Ok in Hrun as (st1 & H1 & Hrun).
  apply bind_Ok in Hrun as (st2 & H2 & [= <-]).
  exists st1, st2. simpl. do 3 (split; [done|]).
  assert (conv_inv Q [] st1) as Hinv1.
  { apply (convert_pair_spec Q) in H1; [done|done|].
    intros found can src p Hfound Hcan Hsrc. apply HQ.
    exists found, can. rewrite elem_of_app. auto. }
  split; [done|].
  apply (convert_pair_spec Q) in H2; [done|apply Hinv1|].
  intros found can src p Hfound Hcan Hsrc. apply HQ.
  exists found, can. rewrite elem_of_app. auto.
Qed.

(** C6, as stated, fails: with [merge_pair] the loader stores, for a
    fully labeled annotation row, a pose that is neither fully valid nor
    entirely unset. *)
Lemma pose_partially_set_counterexample :
  fully_valid labeled_pose = true ∧
  (r ← PairLoader.make_pair true [[labeled_candidate]] [];
   p ← getitem (PairLoader.labels_3d r) "0_0";
   Ok (fully_valid p, isnan_all p, p !! 10))
  = Ok (false, false, Some nan_keypoint).
Proof. split; by vm_compute. Qed.

(** C6, amended.  Every Pose3D that [make_pair] stores comes from a row
    of the source annotation: without [merge_pair] it is that row, so it
    is fully valid or entirely unset whenever the row is; with
    [merge_pair] it is the row padded to 20 keypoints, of which the
    keypoints 10, 11 and 14 to 19 are NaN, so it is never fully valid,
    and it is entirely unset exactly when the row is. *)
Theorem pair_stored_pose (merge_pair : bool)
    (experiments_train experiments_test : list (list PairLoader.candidate))
    (r : PairLoader.loaded) (s : string) (p : pose) :
  PairLoader.make_pair merge_pair experiments_train experiments_test = Ok r →
  PairLoader.labels_3d r !! s = Some p →
  ∃ src, source_row (experiments_train ++ experiments_test) src ∧
    if merge_pair then
      PairLoader.to_r7m src = Ok p ∧ length p = 20 ∧
      fully_valid p = false ∧ isnan_all p = isnan_all src ∧
      ∀ i, i ∈ [10; 11; 14; 15; 16; 17; 18; 19] → p !! i = Some nan_keypoint
    else p = src.
Proof.
  intros Hrun Hp.
  apply (make_pair_inv (λ p, ∃ src,
           source_row (experiments_train ++ experiments_test) src ∧
           stored_from merge_pair src p)) in Hrun
    as (st1 & st2 & _ & _ & Hdd & _ & [_ Hinv]); [|by eauto].
  rewrite Hdd in Hp. destruct (Hinv s p Hp) as (src & Hsrc & Hst).
  exists src. split; [done|]. unfold stored_from in Hst.
  destruct merge_pair; [|done].
  destruct (to_r7m_spec src p Hst) as (? & ? & ? & ? & _). done.
Qed.

Lemma pair_stored_pose_witness :
  ∃ src, source_row ([[labeled_candidate]] ++ []) src ∧
    ∃ p, PairLoader.to_r7m src = Ok p ∧ length p = 20 ∧ fully_valid p = false.
Proof.
  pose (p := (labeled_keypoint <$> [0; 1; 2; 3; 4; 5; 6; 7; 8; 9]%Z)
             ++ [nan_keypoint; nan_keypoint]
             ++ (labeled_keypoint <$> [10; 11]%Z)
             ++ replicate 6 nan_keypoint).
  assert ((r ← PairLoader.make_pair true [[labeled_candidate]] [];
           getitem (PairLoader.labels_3d r) "0_0") = Ok p) as Hrun.
  { vm_compute. reflexivity. }
  apply bind_Ok in Hrun as (r & Hrun & Hp%getitem_Ok).
  destruct (pair_stored_pose true [[labeled_candidate]] [] r "0_0" p Hrun Hp)
    as (src & Hsrc & Hto & Hlen & Hv & _).
  exists src. split; [exact Hsrc|]. exists p.
  split; [exact Hto|]. split; [exact Hlen|exact Hv].
Defined.

(** ** Comparisons of float64 numbers *)

Lemma SFcompare_refl_not_Lt (a : spec_float) : SFcompare a a ≠ Some Lt.
Proof.
  destruct a as [s|s| |s m e]; simpl; try done.
  all: destruct s; rewrite ?Z.compare_refl, ?Pos.compare_refl; simpl;
    rewrite ?Pos.compare_refl; done.
Qed.

Lemma SFcompare_asym (a b : spec_float) :
  SFcompare a b = Some Lt → SFcompare b a = Some Gt.
Proof.
  destruct a as [s|s| |s m e], b as [s'|s'| |s' m' e']; simpl; try done;
    try (by destruct s, s'); try (by destruct s); try (by destruct s').
  destruct s, s'; try done.
  all: rewrite (Z.compare_antisym e e'); destruct (e ?= e')%Z eqn:He; simpl;
    try done.
  all: fold (Pos.compare m m') (Pos.compare m' m);
    rewrite (Pos.compare_antisym m m'); by destruct (m ?= m')%positive.
Qed.

(** [x < x] is false, also for NaN. *)
Lemma ltb_irrefl (x : f64) : PrimFloat.ltb x x = false.
Proof.
  rewrite FloatAxioms.ltb_spec. unfold SFltb.
  pose proof (SFcompare_refl_not_Lt (Prim2SF x)) as H.
  by destruct (SFcompare (Prim2SF x) (Prim2SF x)) as [[| |]|].
Qed.

(** [y < x] excludes [x < y]. *)
Lemma ltb_asym (x y : f64) :
  PrimFloat.ltb x y = true → PrimFloat.ltb y x = false.
Proof.
  rewrite !FloatAxioms.ltb_spec. unfold SFltb.
  destruct (SFcompare (Prim2SF x) (Prim2SF y)) as [[| |]|] eqn:H; try done.
  intros _. by rewrite (SFcompare_asym _ _ H).
Qed.

(** [x < y] excludes [y <= x]. *)
Lemma ltb_not_leb (x y : f64) :
  PrimFloat.ltb x y = true → PrimFloat.leb y x = false.
Proof.
  rewrite FloatAxioms.ltb_spec, FloatAxioms.leb_spec. unfold SFltb, SFleb.
  destruct (SFcompare (Prim2SF x) (Prim2SF y)) as [[| |]|] eqn:H; try done.
  intros _. by rewrite (SFcompare_asym _ _ H).
Qed.

(** [x == y] excludes [x < y]. *)
Lemma eqb_not_ltb (x y : f64) :
  PrimFloat.eqb x y = true → PrimFloat.ltb x y = false.
Proof.
  rewrite FloatAxioms.eqb_spec, FloatAxioms.ltb_spec. unfold SFeqb, SFltb.
  by destruct (SFcompare (Prim2SF x) (Prim2SF y)) as [[| |]|].
Qed.

(** ** The social big-volume policy *)

Section big_volume_facts.
Import BigVolume.

Variable mask_coords_outside_volume : f64 → f64 → pose → vec3 → pose.
Variables vmin vmax threshold : f64.
Variable com3d_dict : gmap string vec3.
Variable datadict_3d : gmap string pose.

#[local] Abbreviation merge_pair :=
  (merge_pair mask_coords_outside_volume vmin vmax threshold com3d_dict
              datadict_3d).
#[local] Abbreviation merge_split :=
  (merge_split mask_coords_outside_volume vmin vmax threshold com3d_dict
               datadict_3d).
#[local] Abbreviation entry :=
  (merged_entry mask_coords_outside_volume vmin vmax threshold com3d_dict
                datadict_3d).
#[local] Abbreviation carried :=
  (dicts_last mask_coords_outside_volume vmin vmax threshold com3d_dict
              datadict_3d).
#[local] Abbreviation last_of := (last_merge com3d_dict threshold).

Lemma last_merge_app (v1 v2 : list (string * string)) (s : string) :
  last_of (v1 ++ v2) s
  = match last_of v2 s with
    | Some vols => Some vols
    | None => last_of v1 s
    end.
Proof. unfold last_merge. by rewrite filter_app, last_app. Qed.

Lemma last_merge_Some (v : list (string * string)) (s : string)
    (vols : string * string) :
  last_of v s = Some vols →
  vols.1 = s ∧ vols ∈ v ∧ close_pair com3d_dict threshold vols.
Proof.
  unfold last_merge. intros Hlast.
  assert (vols ∈ filter (λ vols, vols.1 = s
                                 ∧ close_pair com3d_dict threshold vols) v)
    as Hin.
  { apply last_Some in Hlast as [l' ->]. apply elem_of_app. right.
    apply list_elem_of_here. }
  apply list_elem_of_filter in Hin as [[? ?] ?]. done.
Qed.

Lemma last_merge_is_Some (v : list (string * string)) (s : string) :
  is_Some (last_of v s) ↔
  ∃ vol2, (s, vol2) ∈ v ∧ close_pair com3d_dict threshold (s, vol2).
Proof.
  split.
  - intros [[vol1 vol2] (Heq & Hin & Hc)%last_merge_Some]. simpl in Heq.
    subst vol1. by exists vol2.
  - intros (vol2 & Hin & Hc). unfold last_merge.
    assert ((s, vol2) ∈ filter (λ vols, vols.1 = s
                                   ∧ close_pair com3d_dict threshold vols) v)
      as Hf by (by apply list_elem_of_filter).
    destruct (filter _ v) as [|x l] using rev_ind.
    + by apply elem_of_nil in Hf.
    + rewrite last_snoc. by eexists.
Qed.

Lemma last_merge_None (v : list (string * string)) (s : string) :
  last_of v s = None ↔
  ∀ vol2, (s, vol2) ∈ v → ¬ close_pair com3d_dict threshold (s, vol2).
Proof.
  rewrite eq_None_not_Some, last_merge_is_Some. split.
  - intros Hno vol2 Hin Hc. apply Hno. by exists vol2.
  - intros Hno (vol2 & Hin & Hc). by apply (Hno vol2).
Qed.


Lemma merged_entry_Some (vols : string * string) (c : vec3) (p : pose) :
  entry vols = Some (c, p) →
  ∃ a1 a2 p1 p2,
    com3d_dict !! vols.1 = Some a1 ∧ com3d_dict !! vols.2 = Some a2 ∧
    datadict_3d !! vols.1 = Some p1 ∧ datadict_3d !! vols.2 = Some p2 ∧
    c = midpoint a1 a2 ∧
    p = mask_coords_outside_volume
          (vmin - threshold / 2)%float (vmax + threshold / 2)%float
          (merged_pose a1 a2 p1 p2) (midpoint a1 a2).
Proof.
  unfold merged_entry.
  destruct (com3d_dict !! vols.1) as [a1|]; [|done].
  destruct (com3d_dict !! vols.2) as [a2|]; [|done].
  destruct (datadict_3d !! vols.1) as [p1|]; [|done].
  destruct (datadict_3d !! vols.2) as [p2|]; [|done].
  simpl. intros [= <- <-]. by exists a1, a2, p1, p2.
Qed.

Lemma merge_pair_spec (st st' : acc) (vols : string * string) :
  merge_pair st vols = Ok st' →
  pair_known com3d_dict datadict_3d vols ∧
  carried [vols] st st' ∧
  samps st' = samps st ++ merged_firsts com3d_dict threshold [vols].
Proof.
  destruct vols as [vol1 vol2]. unfold BigVolume.merge_pair.
  intros (a1 & H1%getitem_Ok & Hrun)%bind_Ok.
  apply bind_Ok in Hrun as (a2 & H2%getitem_Ok & Hrun).
  apply bind_Ok in Hrun as (p1 & Hp1%getitem_Ok & Hrun).
  apply bind_Ok in Hrun as (p2 & Hp2%getitem_Ok & Hrun).
  split. { unfold pair_known. simpl. by rewrite H1, H2, Hp1, Hp2. }
  assert (close_pair com3d_dict threshold (vol1, vol2)
          ↔ PrimFloat.leb (dist a1 a2) threshold = true) as Hclose.
  { unfold close_pair. simpl. by rewrite H1, H2. }
  unfold merged_firsts.
  destruct (PrimFloat.leb (dist a1 a2) threshold) eqn:Hd.
  - rewrite filter_cons_True, filter_nil by by apply Hclose.
    injection Hrun as <-. simpl. split; [|done].
    intros s. unfold last_merge. destruct (decide (vol1 = s)) as [<-|Hne].
    + rewrite filter_cons_True, filter_nil by (split; [done|by apply Hclose]).
      simpl. unfold merged_entry. simpl. rewrite H1, H2, Hp1, Hp2. simpl.
      eexists _, _. split; [done|]. by rewrite !lookup_insert_eq.
    + rewrite filter_cons_False, filter_nil by (by intros [? _]).
      simpl. by rewrite !lookup_insert_ne.
  - injection Hrun as <-.
    rewrite filter_cons_False, filter_nil by (rewrite Hclose; congruence).
    split; [|by rewrite app_nil_r].
    intros s. unfold last_merge.
    rewrite filter_cons_False, filter_nil; [done|].
    intros [_ Hc]. apply Hclose in Hc. congruence.
Qed.

Lemma merge_pair_total (st : acc) (vols : string * string) :
  pair_known com3d_dict datadict_3d vols → ∃ st', merge_pair st vols = Ok st'.
Proof.
  destruct vols as [vol1 vol2].
  intros ([a1 H1] & [a2 H2] & [p1 Hp1] & [p2 Hp2]). simpl in *.
  unfold BigVolume.merge_pair, getitem. rewrite H1, H2, Hp1, Hp2. simpl.
  destruct (PrimFloat.leb (dist a1 a2) threshold); eauto.
Qed.

Lemma dicts_last_refl (st : acc) : carried [] st st.
Proof. intros s. by unfold last_merge. Qed.

Lemma dicts_last_trans (v1 v2 : list (string * string)) (a b c : acc) :
  carried v1 a b → carried v2 b c → carried (v1 ++ v2) a c.
Proof.
  intros Hab Hbc s. rewrite last_merge_app.
  specialize (Hab s). specialize (Hbc s).
  destruct (last_of v2 s) as [vols|]; [done|].
  destruct Hbc as [-> ->]. done.
Qed.

(** The loop over the pairs of one split. *)
Lemma merge_pairs_spec (v : list (string * string)) (st st' : acc) :
  for_each merge_pair v st = Ok st' →
  Forall (pair_known com3d_dict datadict_3d) v ∧
  carried v st st' ∧
  samps st' = samps st ++ merged_firsts com3d_dict threshold v.
Proof.
  revert st. induction v as [|vols v IH]; intros st Hrun; simpl in Hrun.
  { injection Hrun as <-. split; [done|]. split; [apply dicts_last_refl|].
    by rewrite app_nil_r. }
  apply bind_Ok in Hrun as (st1 & Hstep & Hrest).
  apply merge_pair_spec in Hstep as (Hk & Hd & Hs).
  apply IH in Hrest as (Hks & Hds & Hss).
  split; [by constructor|]. split.
  - by apply (dicts_last_trans [vols] v _ st1).
  - rewrite Hss, Hs, <-(assoc _). f_equal. unfold merged_firsts.
    by rewrite <-fmap_app, <-filter_app.
Qed.

Lemma merge_pairs_total (v : list (string * string)) (st : acc) :
  Forall (pair_known com3d_dict datadict_3d) v →
  ∃ st', for_each merge_pair v st = Ok st'.
Proof.
  intros Hv. revert st. induction Hv as [|vols v Hk _ IH]; intros st; simpl.
  { by eexists. }
  destruct (merge_pair_total st vols Hk) as [st1 ->]. simpl. apply IH.
Qed.

(** One round of the loop over the splits. *)
Lemma merge_split_spec (st st' : outer) (i : nat) (k : string)
    (v : list (string * string)) :
  merge_split st (i, (k, v)) = Ok st' →
  ∃ name, partition_names !! i = Some name ∧
    new_partition st'
      = <[name := merged_firsts com3d_dict threshold v]> (new_partition st) ∧
    samples_acc st' = samples_acc st ++ merged_firsts com3d_dict threshold v ∧
    Forall (pair_known com3d_dict datadict_3d) v ∧
    carried v (dicts st) (dicts st').
Proof.
  unfold BigVolume.merge_split.
  intros (a & Hloop & Hrun)%bind_Ok.
  apply bind_Ok in Hrun as (name & Hname%list_getitem_Ok & [= <-]).
  apply merge_pairs_spec in Hloop as (Hk & Hd & Hs). simpl in *.
  exists name. rewrite Hs. do 4 (split; [done|]). done.
Qed.

Lemma merge_split_total (st : outer) (i : nat) (k : string)
    (v : list (string * string)) :
  i < length partition_names →
  Forall (pair_known com3d_dict datadict_3d) v →
  ∃ st', merge_split st (i, (k, v)) = Ok st'.
Proof.
  intros Hi Hv. unfold BigVolume.merge_split.
  destruct (merge_pairs_total v
    (Acc (new_datadict3d (dicts st)) (new_comdict3d (dicts st)) []) Hv)
    as [a ->]. simpl.
  destruct (lookup_lt_is_Some_2 partition_names i Hi) as [name Hname].
  unfold list_getitem. rewrite Hname. simpl. by eexists.
Qed.

(** The loop over the splits, from the empty dictionaries. *)
Lemma merge_splits_spec (items : list (string * list (string * string)))
    (st : outer) :
  for_each merge_split (imap (λ i kv, (i, kv)) items)
           (Outer (Acc ∅ ∅ []) ∅ []) = Ok st →
  length items ≤ length partition_names ∧
  (∀ i kv name, items !! i = Some kv → partition_names !! i = Some name →
     new_partition st !! name = Some (merged_firsts com3d_dict threshold kv.2)) ∧
  (∀ name, is_Some (new_partition st !! name) →
     ∃ i, i < length items ∧ partition_names !! i = Some name) ∧
  samples_acc st = merged_firsts com3d_dict threshold (all_pairs items) ∧
  Forall (pair_known com3d_dict datadict_3d) (all_pairs items) ∧
  carried (all_pairs items) (Acc ∅ ∅ []) (dicts st).
Proof.
  revert st. induction items as [|[k v] items IH] using rev_ind; intros st Hrun.
  { simpl in Hrun. injection Hrun as <-. simpl. split; [lia|].
    split; [by intros i kv name ?|]. split.
    { intros name [? Hn]. by rewrite lookup_empty in Hn. }
    split; [done|]. split; [done|]. apply dicts_last_refl. }
  rewrite imap_app, for_each_app in Hrun. simpl in Hrun.
  apply bind_Ok in Hrun as (st0 & Hrun0 & Hstep).
  rewrite Nat.add_0_r in Hstep.
  apply bind_Ok in Hstep as (st1 & Hstep & [= <-]).
  apply IH in Hrun0 as (Hlen & Hpart & Hnames & Hsamples & Hknown & Hdicts).
  apply (merge_split_spec st0 st1 (length items) k v) in Hstep
    as (name & Hname & Hp1 & Hs1 & Hk1 & Hd1).
  assert (all_pairs (items ++ [(k, v)]) = all_pairs items ++ v) as Hall.
  { unfold all_pairs. rewrite bind_app. simpl. by rewrite app_nil_r. }
  rewrite Hall, length_app. simpl.
  split. { apply lookup_lt_Some in Hname. simpl in Hname. lia. }
  split; [|split; [|split; [|split]]].
  - intros i kv name' Hi Hn'. rewrite Hp1.
    destruct (decide (i = length items)) as [->|Hne].
    + rewrite lookup_app_r, Nat.sub_diag in Hi by lia. injection Hi as <-.
      rewrite Hname in Hn'. injection Hn' as <-. by rewrite lookup_insert_eq.
    + assert (i < length items) as Hlt.
      { apply lookup_lt_Some in Hi. rewrite length_app in Hi. simpl in Hi. lia. }
      rewrite lookup_app_l in Hi by done.
      rewrite lookup_insert_ne; [by eapply Hpart|].
      intros ->. apply Hne.
      assert (NoDup partition_names) as Hnd.
      { unfold partition_names. apply NoDup_ListNoDup.
        repeat (constructor; [simpl; intuition discriminate|]). constructor. }
      exact (NoDup_lookup _ _ _ _ Hnd Hn' Hname).
  - intros name'. rewrite Hp1. destruct (decide (name' = name)) as [->|Hne].
    + intros _. exists (length items). split; [lia|done].
    + rewrite lookup_insert_ne by done. intros (i & ? & ?)%Hnames.
      exists i. split; [lia|done].
  - rewrite Hs1, Hsamples. unfold merged_firsts.
    by rewrite <-fmap_app, <-filter_app.
  - by apply Forall_app.
  - by eapply dicts_last_trans.
Qed.

Lemma merge_splits_total (l : list (nat * (string * list (string * string))))
    (st : outer) :
  Forall (λ x, x.1 < length partition_names ∧
               Forall (pair_known com3d_dict datadict_3d) x.2.2) l →
  ∃ st', for_each merge_split l st = Ok st'.
Proof.
  intros Hl. revert st.
  induction Hl as [|[i [k v]] l [Hi Hv] _ IH]; intros st; cbn [for_each].
  { by eexists. }
  destruct (merge_split_total st i k v Hi Hv) as [st1 ->]. apply IH.
Qed.
End big_volume_facts.

Lemma elem_of_merged_firsts (com3d_dict : gmap string vec3) (threshold : f64)
    (v : list (string * string)) (s : string) :
  s ∈ merged_firsts com3d_dict threshold v ↔
  ∃ vol2, (s, vol2) ∈ v ∧ close_pair com3d_dict threshold (s, vol2).
Proof.
  unfold merged_firsts. rewrite list_elem_of_fmap. split.
  - intros ([s' vol2] & -> & [Hc Hin]%list_elem_of_filter). by exists vol2.
  - intros (vol2 & Hin & Hc). exists (s, vol2). split; [done|].
    by apply list_elem_of_filter.
Qed.

Lemma close_pair_iff (com3d_dict : gmap string vec3) (threshold : f64)
    (vol1 vol2 : string) :
  close_pair com3d_dict threshold (vol1, vol2) ↔
  ∃ anchor1 anchor2,
    com3d_dict !! vol1 = Some anchor1 ∧ com3d_dict !! vol2 = Some anchor2 ∧
    PrimFloat.leb (BigVolume.dist anchor1 anchor2) threshold = true.
Proof.
  unfold close_pair. simpl.
  destruct (com3d_dict !! vol1) as [a1|], (com3d_dict !! vol2) as [a2|];
    split; try done; try by intros (? & ? & ? & ? & ?).
  - by exists a1, a2.
  - by intros (? & ? & [= <-] & [= <-] & ?).
Qed.

Lemma elem_of_all_pairs (items : list (string * list (string * string)))
    (vols : string * string) :
  vols ∈ all_pairs items ↔ ∃ kv, kv ∈ items ∧ vols ∈ kv.2.
Proof.
  unfold all_pairs. rewrite list_elem_of_bind.
  split; intros (kv & ? & ?); by exists kv.
Qed.

(** The block returns whenever the [pairs] dictionary has at most two
    keys and the dictionaries know every member of every pair; what it
    returns is read off the state [st] in which the loop over the
    splits ends. *)
Lemma social_big_volume_run (mask : f64 → f64 → pose → vec3 → pose)
    (vmin vmax : f64) (n_channels_out : Z)
    (items : list (string * list (string * string)))
    (com3d_dict : gmap string vec3) (datadict_3d : gmap string pose) :
  length items ≤ 2 →
  Forall (pair_known com3d_dict datadict_3d) (all_pairs items) →
  ∃ st,
    for_each (BigVolume.merge_split mask vmin vmax ((vmax - vmin) / 2)
                com3d_dict datadict_3d)
             (imap (λ i kv, (i, kv)) items)
             (BigVolume.Outer (BigVolume.Acc ∅ ∅ []) ∅ []) = Ok st ∧
    BigVolume.social_big_volume mask vmin vmax n_channels_out (Some items)
      com3d_dict datadict_3d
    = Ok (BigVolume.Out
            (BigVolume.new_datadict3d (BigVolume.dicts st))
            (BigVolume.new_comdict3d (BigVolume.dicts st))
            (sorted (BigVolume.samples_acc st))
            (BigVolume.new_partition st)
            (vmin - (vmax - vmin) / 2 / 2) (vmax + (vmax - vmin) / 2 / 2)
            (n_channels_out * 2)).
Proof.
  intros Hlen Hknown.
  destruct (merge_splits_total mask vmin vmax ((vmax - vmin) / 2)
              com3d_dict datadict_3d (imap (λ i kv, (i, kv)) items)
              (BigVolume.Outer (BigVolume.Acc ∅ ∅ []) ∅ [])) as [st Hst].
  { apply Forall_forall. intros [i kv] (j & y & [= -> ->] & Hj)%elem_of_lookup_imap.
    simpl. split.
    - apply lookup_lt_Some in Hj. simpl. lia.
    - apply Forall_forall. intros vols Hvols.
      rewrite Forall_forall in Hknown. apply Hknown, elem_of_all_pairs.
      exists y. split; [by eapply list_elem_of_lookup_2|done]. }
  exists st. split; [done|].
  unfold BigVolume.social_big_volume. simpl. by rewrite Hst.
Qed.

(** What the block returns, in one place. *)
Lemma social_big_volume_facts (mask : f64 → f64 → pose → vec3 → pose)
    (vmin vmax : f64) (n_channels_out : Z)
    (items : list (string * list (string * string)))
    (com3d_dict : gmap string vec3) (datadict_3d : gmap string pose) :
  length items ≤ 2 →
  Forall (pair_known com3d_dict datadict_3d) (all_pairs items) →
  ∃ out,
    BigVolume.social_big_volume mask vmin vmax n_channels_out (Some items)
      com3d_dict datadict_3d = Ok out ∧
    (∀ i kv name,
       items !! i = Some kv → BigVolume.partition_names !! i = Some name →
       BigVolume.partition' out !! name
       = Some (merged_firsts com3d_dict ((vmax - vmin) / 2) kv.2)) ∧
    (∀ name, is_Some (BigVolume.partition' out !! name) →
       ∃ i kv, items !! i = Some kv ∧
               BigVolume.partition_names !! i = Some name) ∧
    BigVolume.samples' out
      = sorted (merged_firsts com3d_dict ((vmax - vmin) / 2) (all_pairs items)) ∧
    (∀ s vol1 vol2,
       last_merge com3d_dict ((vmax - vmin) / 2) (all_pairs items) s
         = Some (vol1, vol2) →
       vol1 = s ∧ (s, vol2) ∈ all_pairs items ∧
       close_pair com3d_dict ((vmax - vmin) / 2) (s, vol2) ∧
       ∃ a1 a2 p1 p2,
         com3d_dict !! s = Some a1 ∧ com3d_dict !! vol2 = Some a2 ∧
         datadict_3d !! s = Some p1 ∧ datadict_3d !! vol2 = Some p2 ∧
         BigVolume.com3d_dict' out !! s = Some (BigVolume.midpoint a1 a2) ∧
         BigVolume.datadict_3d' out !! s
         = Some (mask (vmin - (vmax - vmin) / 2 / 2)%float
                      (vmax + (vmax - vmin) / 2 / 2)%float
                      (BigVolume.merged_pose a1 a2 p1 p2)
                      (BigVolume.midpoint a1 a2))) ∧
    (∀ s,
       last_merge com3d_dict ((vmax - vmin) / 2) (all_pairs items) s = None →
       BigVolume.com3d_dict' out !! s = None ∧
       BigVolume.datadict_3d' out !! s = None) ∧
    BigVolume.vmin' out = (vmin - (vmax - vmin) / 2 / 2)%float ∧
    BigVolume.vmax' out = (vmax + (vmax - vmin) / 2 / 2)%float ∧
    BigVolume.n_channels_out' out = (n_channels_out * 2)%Z.
Proof.
  intros Hlen Hknown.
  destruct (social_big_volume_run mask vmin vmax n_channels_out items
              com3d_dict datadict_3d Hlen Hknown) as (st & Hloop & Hrun).
  apply merge_splits_spec in Hloop
    as (_ & Hpart & Hnames & Hsamples & _ & Hdicts).
  eexists. split; [exact Hrun|]. simpl.
  split; [done|]. split; [|split; [|split; [|split; [|done]]]].
  - intros name (i & Hi & Hn)%Hnames.
    destruct (lookup_lt_is_Some_2 items i Hi) as [kv Hkv]. by exists i, kv.
  - by rewrite Hsamples.
  - intros s vol1 vol2 Hlast. specialize (Hdicts s). rewrite Hlast in Hdicts.
    destruct Hdicts as (c & p & He & Hc & Hp).
    apply last_merge_Some in Hlast as (Heq & Hin & Hclose). simpl in Heq.
    subst vol1. do 3 (split; [done|]).
    apply merged_entry_Some in He
      as (a1 & a2 & p1 & p2 & H1 & H2 & Hp1 & Hp2 & -> & ->).
    by exists a1, a2, p1, p2.
  - intros s Hlast. specialize (Hdicts s). by rewrite Hlast in Hdicts.
Qed.

(** The keys of the new dictionaries are the first members of the pairs
    that merge. *)
Lemma social_big_volume_keys (mask : f64 → f64 → pose → vec3 → pose)
    (vmin vmax : f64) (n_channels_out : Z)
    (items : list (string * list (string * string)))
    (com3d_dict : gmap string vec3) (datadict_3d : gmap string pose)
    (out : BigVolume.out) :
  length items ≤ 2 →
  Forall (pair_known com3d_dict datadict_3d) (all_pairs items) →
  BigVolume.social_big_volume mask vmin vmax n_channels_out (Some items)
    com3d_dict datadict_3d = Ok out →
  ∀ s, (is_Some (BigVolume.com3d_dict' out !! s) ↔
        ∃ vol2, (s, vol2) ∈ all_pairs items ∧
                close_pair com3d_dict ((vmax - vmin) / 2) (s, vol2)) ∧
       (is_Some (BigVolume.datadict_3d' out !! s) ↔
        ∃ vol2, (s, vol2) ∈ all_pairs items ∧
                close_pair com3d_dict ((vmax - vmin) / 2) (s, vol2)).
Proof.
  intros Hlen Hknown Hout.
  destruct (social_big_volume_facts mask vmin vmax n_channels_out items
              com3d_dict datadict_3d Hlen Hknown)
    as (out' & Hrun & _ & _ & _ & Hsome & Hnone & _).
  rewrite Hout in Hrun. injection Hrun as <-. intros s.
  rewrite <-last_merge_is_Some.
  destruct (last_merge com3d_dict ((vmax - vmin) / 2) (all_pairs items) s)
    as [[vol1 vol2]|] eqn:Hlast.
  - destruct (Hsome s vol1 vol2 Hlast)
      as (_ & _ & _ & a1 & a2 & p1 & p2 & _ & _ & _ & _ & -> & ->).
    split; split; by eexists.
  - destruct (Hnone s Hlast) as [-> ->].
    split; split; by intros [? ?].
Qed.


(** C7. The pose stored for a merged sample is made from the
    concatenation, along the keypoint axis, of the poses of the two
    instances of a merging pair: the pose of the instance whose COM has
    the smaller x coordinate comes first, the other second (on equal x
    coordinates, and whenever the test [anchor1[0] < anchor2[0]] is
    false, the second instance comes first); the stored entry is
    [mask_coords_outside_volume] applied to that concatenation.  The
    merging pair is the last one that has the sample as its first
    member. *)
Theorem big_volume_pose_concat (mask : f64 → f64 → pose → vec3 → pose)
    (vmin vmax : f64) (n_channels_out : Z)
    (items : list (string * list (string * string)))
    (com3d_dict : gmap string vec3) (datadict_3d : gmap string pose) :
  length items ≤ 2 →
  Forall (pair_known com3d_dict datadict_3d) (all_pairs items) →
  ∃ out,
    BigVolume.social_big_volume mask vmin vmax n_channels_out (Some items)
      com3d_dict datadict_3d = Ok out ∧
    (∀ s p, BigVolume.datadict_3d' out !! s = Some p →
       ∃ vol2 a1 a2 p1 p2,
         (s, vol2) ∈ all_pairs items ∧
         last_merge com3d_dict ((vmax - vmin) / 2) (all_pairs items) s
           = Some (s, vol2) ∧
         com3d_dict !! s = Some a1 ∧ com3d_dict !! vol2 = Some a2 ∧
         datadict_3d !! s = Some p1 ∧ datadict_3d !! vol2 = Some p2 ∧
         close_pair com3d_dict ((vmax - vmin) / 2) (s, vol2) ∧
         p = mask (vmin - (vmax - vmin) / 2 / 2)%float
                  (vmax + (vmax - vmin) / 2 / 2)%float
                  (BigVolume.merged_pose a1 a2 p1 p2)
                  (BigVolume.midpoint a1 a2) ∧
         (PrimFloat.ltb (vx a1) (vx a2) = true →
            BigVolume.merged_pose a1 a2 p1 p2 = p1 ++ p2) ∧
         (PrimFloat.ltb (vx a2) (vx a1) = true →
            BigVolume.merged_pose a1 a2 p1 p2 = p2 ++ p1) ∧
         (vx a1 = vx a2 → BigVolume.merged_pose a1 a2 p1 p2 = p2 ++ p1) ∧
         (PrimFloat.eqb (vx a1) (vx a2) = true →
            BigVolume.merged_pose a1 a2 p1 p2 = p2 ++ p1) ∧
         (PrimFloat.ltb (vx a1) (vx a2) = false →
            BigVolume.merged_pose a1 a2 p1 p2 = p2 ++ p1)) ∧
    (∀ vol1 vol2, (vol1, vol2) ∈ all_pairs items →
       close_pair com3d_dict ((vmax - vmin) / 2) (vol1, vol2) →
       is_Some (BigVolume.datadict_3d' out !! vol1)).
Proof.
  intros Hlen Hknown.
  destruct (social_big_volume_facts mask vmin vmax n_channels_out items
              com3d_dict datadict_3d Hlen Hknown)
    as (out & Hrun & _ & _ & _ & Hsome & Hnone & _).
  exists out. split; [done|]. split.
  - intros s p Hp.
    destruct (last_merge com3d_dict ((vmax - vmin) / 2) (all_pairs items) s)
      as [[vol1 vol2]|] eqn:Hlast.
    2:{ destruct (Hnone s Hlast) as [_ Hno]. congruence. }
    destruct (Hsome s vol1 vol2 Hlast)
      as (-> & Hin & Hc & a1 & a2 & p1 & p2 & H1 & H2 & Hp1 & Hp2 & _ & Hp').
    rewrite Hp in Hp'. injection Hp' as ->.
    exists vol2, a1, a2, p1, p2. do 8 (split; [done|]).
    assert (PrimFloat.ltb (vx a1) (vx a2) = false →
            BigVolume.merged_pose a1 a2 p1 p2 = p2 ++ p1) as Hfalse.
    { intros Hx. unfold BigVolume.merged_pose, concatenate_last.
      by rewrite Hx. }
    split; [|split; [|split; [|split; [|done]]]].
    + intros Hx. unfold BigVolume.merged_pose, concatenate_last. by rewrite Hx.
    + intros Hx. by apply Hfalse, ltb_asym.
    + intros Hx. apply Hfalse. rewrite Hx. apply ltb_irrefl.
    + intros Hx. by apply Hfalse, eqb_not_ltb.
  - intros vol1 vol2 Hv Hc.
    by apply (social_big_volume_keys mask vmin vmax n_channels_out items
                com3d_dict datadict_3d out Hlen Hknown Hrun vol1); exists vol2.
Qed.

(** C2, amended.  A pair whose COMs are farther apart than the threshold
    adds no sample: the new sample list, the lists of the new partition
    and the keys of the two new dictionaries hold exactly the first
    members of the pairs that merge, and an instance that is the first
    member of no merging pair is in no list of the new partition and has
    no entry in the new dictionaries.  A pair does not merge when the
    distance of its COMs, computed in float64, exceeds (vmax - vmin)/2,
    and whenever the test [dist <= threshold] is false. *)
Theorem big_volume_far_pair_dropped (mask : f64 → f64 → pose → vec3 → pose)
    (vmin vmax : f64) (n_channels_out : Z)
    (items : list (string * list (string * string)))
    (com3d_dict : gmap string vec3) (datadict_3d : gmap string pose) :
  length items ≤ 2 →
  Forall (pair_known com3d_dict datadict_3d) (all_pairs items) →
  ∃ out,
    BigVolume.social_big_volume mask vmin vmax n_channels_out (Some items)
      com3d_dict datadict_3d = Ok out ∧
    (∀ s, s ∈ BigVolume.samples' out ↔
          ∃ vol2, (s, vol2) ∈ all_pairs items ∧
                  close_pair com3d_dict ((vmax - vmin) / 2) (s, vol2)) ∧
    (∀ i kv name,
       items !! i = Some kv → BigVolume.partition_names !! i = Some name →
       ∃ l, BigVolume.partition' out !! name = Some l ∧
            ∀ s, s ∈ l ↔
                 ∃ vol2, (s, vol2) ∈ kv.2 ∧
                         close_pair com3d_dict ((vmax - vmin) / 2) (s, vol2)) ∧
    (∀ name, is_Some (BigVolume.partition' out !! name) →
       ∃ i kv, items !! i = Some kv ∧
               BigVolume.partition_names !! i = Some name) ∧
    (∀ s, is_Some (BigVolume.com3d_dict' out !! s) ↔
          ∃ vol2, (s, vol2) ∈ all_pairs items ∧
                  close_pair com3d_dict ((vmax - vmin) / 2) (s, vol2)) ∧
    (∀ s, is_Some (BigVolume.datadict_3d' out !! s) ↔
          ∃ vol2, (s, vol2) ∈ all_pairs items ∧
                  close_pair com3d_dict ((vmax - vmin) / 2) (s, vol2)) ∧
    (∀ s,
       (∀ vol2, (s, vol2) ∈ all_pairs items →
                ¬ close_pair com3d_dict ((vmax - vmin) / 2) (s, vol2)) →
       (s ∉ BigVolume.samples' out) ∧
       (∀ name l, BigVolume.partition' out !! name = Some l → s ∉ l) ∧
       BigVolume.com3d_dict' out !! s = None ∧
       BigVolume.datadict_3d' out !! s = None) ∧
    (∀ vol1 vol2 a1 a2,
       com3d_dict !! vol1 = Some a1 → com3d_dict !! vol2 = Some a2 →
       PrimFloat.ltb ((vmax - vmin) / 2) (BigVolume.dist a1 a2) = true →
       ¬ close_pair com3d_dict ((vmax - vmin) / 2) (vol1, vol2)) ∧
    (∀ vol1 vol2 a1 a2,
       com3d_dict !! vol1 = Some a1 → com3d_dict !! vol2 = Some a2 →
       PrimFloat.leb (BigVolume.dist a1 a2) ((vmax - vmin) / 2) = false →
       ¬ close_pair com3d_dict ((vmax - vmin) / 2) (vol1, vol2)).
Proof.
  intros Hlen Hknown.
  destruct (social_big_volume_facts mask vmin vmax n_channels_out items
              com3d_dict datadict_3d Hlen Hknown)
    as (out & Hrun & Hpart & Hnames & Hsamples & _ & Hnone & _).
  pose proof (social_big_volume_keys mask vmin vmax n_channels_out items
                com3d_dict datadict_3d out Hlen Hknown Hrun) as Hkeys.
  exists out. split; [done|].
  assert (∀ s, s ∈ BigVolume.samples' out ↔
            ∃ vol2, (s, vol2) ∈ all_pairs items ∧
                    close_pair com3d_dict ((vmax - vmin) / 2) (s, vol2)) as Hiff.
  { intros s. by rewrite Hsamples, elem_of_sorted, elem_of_merged_firsts. }
  split; [done|]. split; [|split; [done|split; [|split; [|split; [|split]]]]].
  - intros i kv name Hkv Hname. eexists. split; [by eapply Hpart|].
    intros s. apply elem_of_merged_firsts.
  - intros s. apply Hkeys.
  - intros s. apply Hkeys.
  - intros s Hfar. split; [|split].
    + rewrite Hiff. intros (vol2 & Hv & Hc). by apply (Hfar vol2).
    + intros name l Hl Hs.
      destruct (Hnames name) as (i & kv & Hkv & Hname); [by eexists|].
      rewrite (Hpart i kv name Hkv Hname) in Hl. injection Hl as <-.
      apply elem_of_merged_firsts in Hs as (vol2 & Hv & Hc).
      apply (Hfar vol2); [|done]. apply elem_of_all_pairs.
      exists kv. split; [by eapply list_elem_of_lookup_2|done].
    + apply Hnone. by apply last_merge_None.
  - intros vol1 vol2 a1 a2 H1 H2 Hd%ltb_not_leb
      (a1' & a2' & H1' & H2' & Hle)%close_pair_iff.
    congruence.
  - intros vol1 vol2 a1 a2 H1 H2 Hd (a1' & a2' & H1' & H2' & Hle)%close_pair_iff.
    congruence.
Qed.

(** *** A run with one far and one near pair *)

Lemma example_com_lookups :
  example_com !! "0_7" = Some (Vec3 0 0 0) ∧
  example_com !! "1_7" = Some (Vec3 100 0 0) ∧
  example_com !! "0_8" = Some (Vec3 0 0 0) ∧
  example_com !! "1_8" = Some (Vec3 10 0 0).
Proof. repeat split; vm_compute; reflexivity. Qed.

Lemma example_dd_lookups :
  example_dd !! "0_7" = Some (example_pose 1) ∧
  example_dd !! "1_7" = Some (example_pose 101) ∧
  example_dd !! "0_8" = Some (example_pose 1) ∧
  example_dd !! "1_8" = Some (example_pose 11).
Proof. repeat split; vm_compute; reflexivity. Qed.

Lemma example_known :
  Forall (pair_known example_com example_dd) (all_pairs example_pairs).
Proof.
  destruct example_com_lookups as (C1 & C2 & C3 & C4).
  destruct example_dd_lookups as (D1 & D2 & D3 & D4).
  unfold all_pairs, example_pairs. simpl.
  repeat constructor; simpl; by eexists.
Qed.

(** The distance of the far pair, computed in float64, is 100. *)
Lemma example_far_dist :
  BigVolume.dist (Vec3 0 0 0) (Vec3 100 0 0) = 100%float ∧
  PrimFloat.leb 100 ((60 - -60) / 2) = false.
Proof. split; vm_compute; reflexivity. Qed.

Lemma example_far : ¬ close_pair example_com ((60 - -60) / 2) ("0_7", "1_7").
Proof.
  destruct example_com_lookups as (C1 & C2 & _).
  unfold close_pair. simpl. rewrite C1, C2. vm_compute. discriminate.
Qed.

Lemma example_near : close_pair example_com ((60 - -60) / 2) ("0_8", "1_8").
Proof.
  destruct example_com_lookups as (_ & _ & C3 & C4).
  unfold close_pair. simpl. rewrite C3, C4. vm_compute. reflexivity.
Qed.

Lemma example_merged :
  merged_firsts example_com ((60 - -60) / 2) (all_pairs example_pairs)
  = ["0_8"].
Proof.
  unfold merged_firsts, all_pairs, example_pairs. simpl.
  rewrite filter_cons_False by apply example_far.
  by rewrite filter_cons_True by apply example_near.
Qed.

Lemma example_in_pairs :
  ("0_7", "1_7") ∈ all_pairs example_pairs ∧
  ("0_8", "1_8") ∈ all_pairs example_pairs.
Proof.
  unfold all_pairs, example_pairs. simpl.
  split; [apply list_elem_of_here|apply list_elem_of_further, list_elem_of_here].
Qed.

Lemma example_pairs_inv (vols : string * string) :
  vols ∈ all_pairs example_pairs → vols = ("0_7", "1_7") ∨ vols = ("0_8", "1_8").
Proof.
  unfold all_pairs, example_pairs. simpl.
  intros [->|Hin]%elem_of_cons; [by left|].
  apply elem_of_cons in Hin as [->|Hin]; [by right|].
  by apply elem_of_nil in Hin.
Qed.

(** C2, as stated, fails: the instances "0_7" and "1_7" are 100 apart,
    farther than the threshold 60, and neither of them is in the
    resulting sample list, partition or dictionaries; only the merged
    sample "0_8" of the near pair is. *)
Lemma big_volume_far_pair_counterexample :
  PrimFloat.ltb ((60 - -60) / 2) (BigVolume.dist (Vec3 0 0 0) (Vec3 100 0 0))
    = true ∧
  ∃ out,
    BigVolume.social_big_volume no_mask (-60) 60 23 (Some example_pairs)
      example_com example_dd = Ok out ∧
    BigVolume.samples' out = ["0_8"] ∧
    BigVolume.partition' out !! "train_sampleIDs" = Some ["0_8"] ∧
    BigVolume.partition' out !! "valid_sampleIDs" = Some [] ∧
    BigVolume.com3d_dict' out !! "0_7" = None ∧
    BigVolume.com3d_dict' out !! "1_7" = None ∧
    BigVolume.datadict_3d' out !! "0_7" = None ∧
    BigVolume.datadict_3d' out !! "1_7" = None.
Proof.
  split; [vm_compute; reflexivity|].
  destruct (social_big_volume_facts no_mask (-60) 60 23 example_pairs
              example_com example_dd) as
    (out & Hrun & Hpart & _ & Hsamples & _ & Hnone' & _);
    [simpl; lia|apply example_known|].
  exists out. split; [done|].
  assert (∀ s, s ≠ "0_8" → BigVolume.com3d_dict' out !! s = None ∧
                            BigVolume.datadict_3d' out !! s = None) as Hnone.
  { intros s Hs. apply Hnone', last_merge_None.
    intros vol2 [[= -> ->]|[= -> ->]]%example_pairs_inv; [|done].
    apply example_far. }
  split. { rewrite Hsamples, example_merged. by vm_compute. }
  split.
  { rewrite (Hpart 0 ("train_pairs", [("0_7", "1_7"); ("0_8", "1_8")])
               "train_sampleIDs") by done.
    exact (f_equal Some example_merged). }
  split. { by rewrite (Hpart 1 ("valid_pairs", []) "valid_sampleIDs"). }
  repeat split; by apply Hnone.
Qed.

(** *** Two merging pairs with the same first member *)

(** Both pairs merge; the first member is listed twice, and the entries
    stored under it are those of the second pair. *)
Lemma shared_first_member :
  ∃ out,
    BigVolume.social_big_volume no_mask (-60) 60 23 (Some shared_pairs)
      shared_com shared_dd = Ok out ∧
    BigVolume.partition' out !! "train_sampleIDs" = Some ["0_8"; "0_8"] ∧
    BigVolume.samples' out = ["0_8"; "0_8"] ∧
    BigVolume.com3d_dict' out !! "0_8" = Some (Vec3 0 5 0) ∧
    BigVolume.datadict_3d' out !! "0_8"
    = Some (example_pose 21 ++ example_pose 1).
Proof.
  assert (shared_com !! "0_8" = Some (Vec3 0 0 0) ∧
          shared_com !! "1_8" = Some (Vec3 10 0 0) ∧
          shared_com !! "2_8" = Some (Vec3 0 10 0)) as (C0 & C1 & C2)
    by (repeat split; vm_compute; reflexivity).
  assert (shared_dd !! "0_8" = Some (example_pose 1) ∧
          shared_dd !! "1_8" = Some (example_pose 11) ∧
          shared_dd !! "2_8" = Some (example_pose 21)) as (D0 & D1 & D2)
    by (repeat split; vm_compute; reflexivity).
  destruct (social_big_volume_facts no_mask (-60) 60 23 shared_pairs
              shared_com shared_dd) as
    (out & Hrun & Hpart & _ & Hsamples & Hsome & _).
  { simpl. lia. }
  { unfold all_pairs, shared_pairs. simpl.
    repeat constructor; simpl; by eexists. }
  assert (merged_firsts shared_com ((60 - -60) / 2) (all_pairs shared_pairs)
          = ["0_8"; "0_8"]) as Hm by (vm_compute; reflexivity).
  exists out. split; [done|]. split; [|split].
  - rewrite (Hpart 0 ("train_pairs", [("0_8", "1_8"); ("0_8", "2_8")])
               "train_sampleIDs") by done.
    exact (f_equal Some Hm).
  - rewrite Hsamples, Hm. by vm_compute.
  - destruct (Hsome "0_8" "0_8" "2_8")
      as (_ & _ & _ & a1 & a2 & p1 & p2 & H1 & H2 & Hp1 & Hp2 & Hc & Hp).
    { vm_compute. reflexivity. }
    rewrite C0 in H1. rewrite C2 in H2. rewrite D0 in Hp1. rewrite D2 in Hp2.
    injection H1 as <-. injection H2 as <-.
    injection Hp1 as <-. injection Hp2 as <-.
    split; [exact Hc|exact Hp].
Qed.

(** *** A pair at the edge of the threshold *)

(** The squares of the differences add up to 1 + 2^-60, which float64
    rounds to 1; the distance that the code compares with the threshold
    1 is therefore 1, and the pair merges. *)
Lemma edge_pair_merges :
  BigVolume.dist (Vec3 0 0 0) (Vec3 1 0x1p-30 0) = 1%float ∧
  close_pair edge_com ((1 - -1) / 2) ("0_7", "1_7") ∧
  merged_firsts edge_com ((1 - -1) / 2) (all_pairs edge_pairs) = ["0_7"].
Proof.
  assert (close_pair edge_com ((1 - -1) / 2) ("0_7", "1_7")) as Hc.
  { unfold close_pair. simpl.
    replace (edge_com !! "0_7") with (Some (Vec3 0 0 0))
      by (vm_compute; reflexivity).
    replace (edge_com !! "1_7") with (Some (Vec3 1 0x1p-30 0))
      by (vm_compute; reflexivity).
    vm_compute. reflexivity. }
  split; [vm_compute; reflexivity|]. split; [done|].
  unfold merged_firsts, all_pairs, edge_pairs. simpl.
  by rewrite filter_cons_True by done.
Qed.


Lemma big_volume_pose_concat_witness :
  ∃ out,
    BigVolume.social_big_volume no_mask (-60) 60 23 (Some example_pairs)
      example_com example_dd = Ok out ∧
    is_Some (BigVolume.datadict_3d' out !! "0_8").
Proof.
  destruct (big_volume_pose_concat no_mask (-60) 60 23 example_pairs
              example_com example_dd) as (out & Hrun & _ & Hin);
    [simpl; lia|apply example_known|].
  exists out. split; [exact Hrun|].
  apply (Hin "0_8" "1_8"); [apply example_in_pairs|apply example_near].
Defined.

Lemma big_volume_far_pair_dropped_witness :
  ∃ out,
    BigVolume.social_big_volume no_mask (-60) 60 23 (Some example_pairs)
      example_com example_dd = Ok out ∧
    ("0_7" ∉ BigVolume.samples' out) ∧
    BigVolume.com3d_dict' out !! "0_7" = None ∧
    BigVolume.datadict_3d' out !! "0_7" = None ∧
    "0_8" ∈ BigVolume.samples' out.
Proof.
  destruct (big_volume_far_pair_dropped no_mask (-60) 60 23 example_pairs
              example_com example_dd)
    as (out & Hrun & Hiff & _ & _ & _ & _ & Hfar & Hdist & _);
    [simpl; lia|apply example_known|].
  destruct example_com_lookups as (C1 & C2 & _).
  destruct example_in_pairs as [_ Hin8].
  exists out. split; [exact Hrun|].
  destruct (Hfar "0_7") as (Hs & _ & Hc & Hp).
  { intros vol2 Hin. apply example_pairs_inv in Hin.
    destruct Hin as [Heq|Heq]; [|discriminate Heq].
    injection Heq as ->.
    apply (Hdist "0_7" "1_7" (Vec3 0 0 0) (Vec3 100 0 0) C1 C2).
    vm_compute. reflexivity. }
  split; [exact Hs|]. split; [exact Hc|]. split; [exact Hp|].
  apply Hiff. exists "1_8". split; [exact Hin8|exact example_near].
Defined.

(** ** COM augmentation *)

Lemma append_nil_l (s : string) : "" +:+ s = s.
Proof. reflexivity. Qed.

Lemma append_cons (a : ascii) (s t : string) :
  String a s +:+ t = String a (s +:+ t).
Proof. reflexivity. Qed.

Lemma tag_unfold (iter : nat) (s : string) :
  ComAug.tag iter s = s +:+ String dash ("comaug" +:+ str_nat iter).
Proof. reflexivity. Qed.

Lemma no_dash_comaug (d : string) :
  all_chars is_digit d → all_chars (λ a, a ≠ dash) ("comaug" +:+ d).
Proof.
  intros Hd. rewrite all_chars_app. split.
  - simpl. by repeat (split; [done|]).
  - eapply all_chars_impl; [|done].
    intros a Ha. by apply is_digit_not_sign in Ha as (? & _).
Qed.

Lemma dash_in_tag (P : ascii → Prop) (s t : string) :
  all_chars P (s +:+ String dash t) → P dash.
Proof. rewrite all_chars_app. simpl. tauto. Qed.

Lemma tag_suffix_inj (s s' d d' : string) :
  all_chars is_digit d → all_chars is_digit d' →
  s +:+ String dash ("comaug" +:+ d) = s' +:+ String dash ("comaug" +:+ d') →
  s = s' ∧ d = d'.
Proof.
  intros Hd Hd'. revert s'. induction s as [|a s IH]; intros [|a' s'] Heq.
  - rewrite !append_nil_l in Heq. injection Heq as Heq.
    by rewrite !append_nil_l in Heq.
  - rewrite append_nil_l, append_cons in Heq. injection Heq as <- Heq.
    pose proof (no_dash_comaug d Hd) as Hno.
    change ("comaug" +:+ d) with (String "c" ("omaug" +:+ d)) in Hno.
    rewrite Heq in Hno. by apply dash_in_tag in Hno.
  - rewrite append_nil_l, append_cons in Heq. injection Heq as -> Heq.
    pose proof (no_dash_comaug d' Hd') as Hno.
    rewrite <-Heq in Hno. by apply dash_in_tag in Hno.
  - rewrite !append_cons in Heq. injection Heq as -> Heq.
    by destruct (IH _ Heq) as [-> ->].
Qed.

Lemma tag_inj (iter iter' : nat) (s s' : string) :
  ComAug.tag iter s = ComAug.tag iter' s' → s = s' ∧ iter = iter'.
Proof.
  rewrite !tag_unfold. intros Heq.
  apply tag_suffix_inj in Heq as [-> Hd]; [|apply str_nat_digits..].
  split; [done|]. by apply (inj pretty).
Qed.

Lemma encoded_not_tagged (s : string) : encoded s → ¬ tagged s.
Proof.
  intros (c & f & ->) (iter & s0 & Heq).
  assert (all_chars (λ a, is_digit a ∨ a = underscore)
                    (SampleId.encode c (Z.of_nat f))) as Hall.
  { unfold SampleId.encode. rewrite str_Z_of_nat.
    rewrite !all_chars_app. split; [|split].
    - eapply all_chars_impl; [|apply str_nat_digits]. by left.
    - simpl. split; [by right|done].
    - eapply all_chars_impl; [|apply str_nat_digits]. by left. }
  rewrite Heq, tag_unfold in Hall. apply dash_in_tag in Hall as [Hd|Hd]; [|done].
  by apply is_digit_not_sign in Hd as (? & _).
Qed.

Lemma length_new_tags (datadict_3d : gmap string pose) (train : list string)
    (aug_iters : nat) :
  length (new_tags datadict_3d train aug_iters)
  = aug_iters * length (filter (labeled datadict_3d) train).
Proof.
  unfold new_tags. generalize 0.
  induction aug_iters as [|k IH]; intros start; simpl; [done|].
  by rewrite length_app, length_fmap, IH.
Qed.

Lemma new_tags_S (datadict_3d : gmap string pose) (train : list string)
    (k : nat) :
  new_tags datadict_3d train (S k)
  = new_tags datadict_3d train k
    ++ (ComAug.tag k <$> filter (labeled datadict_3d) train).
Proof.
  unfold new_tags. rewrite seq_S, bind_app. simpl. by rewrite app_nil_r.
Qed.

Lemma NoDup_new_tags (datadict_3d : gmap string pose) (train : list string)
    (aug_iters : nat) :
  NoDup train → NoDup (new_tags datadict_3d train aug_iters).
Proof.
  intros Hnd. unfold new_tags. apply NoDup_bind.
  - intros i i' t _ _ (s & -> & _)%list_elem_of_fmap
      (s' & Heq & _)%list_elem_of_fmap.
    by apply tag_inj in Heq as [_ ->].
  - intros i _. apply NoDup_fmap_2; [|by apply NoDup_filter].
    intros s s' Heq. by apply tag_inj in Heq as [-> _].
  - apply NoDup_seq.
Qed.

Section com_aug_facts.
Import ComAug.

Variable D : Type.
Variable rand : nat → vec3.
Variable perturb_radius : f64.
Variable train : list string.
Variable aug_iters : nat.
Variable st0 : state D.

Hypothesis start_known : known train st0.

#[local] Abbreviation good := (good rand perturb_radius st0).
#[local] Abbreviation kept := (kept train aug_iters st0).
#[local] Abbreviation no_tags :=
  (∀ s, s ∈ train → ¬ tag_of train aug_iters s).

Lemma fresh_loc (h : gmap positive vec3) : h !! fresh (dom h) = None.
Proof. apply not_elem_of_dom, is_fresh. Qed.

(** One sample of one round.  The step returns and keeps what every
    round keeps; when no train sample is itself a tagged copy, a labeled
    sample adds its copy and an unlabeled one adds nothing. *)
Lemma augment_sample_spec (iter : nat) (st : state D) (sample : string) :
  iter < aug_iters → sample ∈ train → known train st → kept st →
  ∃ st',
    augment_sample rand perturb_radius train iter st sample = Ok st' ∧
    known train st' ∧ kept st' ∧
    (no_tags →
       train_samples_new st'
         = train_samples_new st
           ++ (if decide (labeled (datadict_3d st0) sample)
               then [tag iter sample] else []) ∧
       (labeled (datadict_3d st0) sample → good st' iter sample) ∧
       (∀ i s, good st i s → good st' i s)).
Proof.
  intros Hiter Hin [Hk1 Hk2] (Hheap & Hrest & Hnew & Hrng).
  unfold augment_sample. rewrite decide_False by (by intros []).
  destruct (Hk1 sample Hin) as [p Hp].
  rewrite (proj2 (getitem_Ok _ _ _) Hp). simpl.
  destruct (isnan_all p) eqn:Hnan.
  { exists st. split; [done|]. split; [done|]. split; [done|].
    intros Hnt. destruct (Hrest sample (Hnt sample Hin)) as (_ & Hp0 & _).
    assert (¬ labeled (datadict_3d st0) sample) as Hno.
    { unfold labeled. rewrite <-Hp0, Hp. congruence. }
    rewrite decide_False by done. by rewrite app_nil_r. }
  assert (labeled (datadict_3d st) sample) as Hlab
    by (by unfold labeled; rewrite Hp).
  destruct (Hk2 sample Hin Hlab) as ([d Hd] & l0 & Hl0 & [c0 Hc0]).
  pose proof (fresh_loc (heap st)) as Hfresh.
  rewrite (proj2 (getitem_Ok _ _ _) Hl0). simpl. unfold deepcopy, read.
  rewrite (proj2 (getitem_Ok _ _ _) Hc0). simpl.
  unfold iadd, read.
  rewrite (proj2 (getitem_Ok (<[fresh (dom (heap st)) := c0]> (heap st)) _ c0)
             (lookup_insert_eq _ _ _)). simpl.
  rewrite ?(proj2 (getitem_Ok _ _ _) Hp), ?(proj2 (getitem_Ok _ _ _) Hd). simpl.
  eexists. split; [done|].
  set (l1 := fresh (dom (heap st))) in *.
  set (t := tag iter sample).
  assert (tag_of train aug_iters t) as Ht by (by exists iter, sample).
  assert (heap st0 !! l1 = None) as Hl1.
  { destruct (heap st0 !! l1) as [c|] eqn:E; [|done].
    apply Hheap in E. congruence. }
  assert (∀ l, is_Some (heap st !! l) → l1 ≠ l) as Hfar.
  { intros l [c Hc] <-. congruence. }
  split; [|split; [|]].
  - split.
    + intros s Hs. simpl. destruct (decide (t = s)) as [<-|Hne].
      * rewrite lookup_insert_eq. by eexists.
      * rewrite lookup_insert_ne by done. by apply Hk1.
    + intros s Hs. unfold labeled. simpl.
      destruct (decide (t = s)) as [<-|Hne].
      * intros _. rewrite !lookup_insert_eq. split; [by eexists|].
        exists l1. split; [done|]. rewrite lookup_insert_eq. by eexists.
      * rewrite !lookup_insert_ne by done. intros Hl.
        destruct (Hk2 s Hs Hl) as (Hd' & l & Hl' & Hc). split; [done|].
        exists l. split; [done|].
        rewrite !lookup_insert_ne by (by apply Hfar). done.
  - split; [|split; [|split]]; [| | |simpl; rewrite length_app; simpl; lia].
    + intros l c Hl. simpl. apply Hheap in Hl.
      rewrite !lookup_insert_ne by (apply Hfar; by eexists). done.
    + intros k Hk. simpl.
      assert (t ≠ k) as Hne by (by intros <-).
      rewrite !lookup_insert_ne by done. by apply Hrest.
    + intros t' Ht'. simpl in Ht'. simpl.
      destruct (decide (t = t')) as [<-|Hne].
      * split; [done|]. rewrite !lookup_insert_eq.
        split; [by eexists|]. split; [by eexists|].
        exists l1. split; [done|]. split; [done|].
        rewrite lookup_insert_eq. by eexists.
      * apply elem_of_app in Ht' as [Ht'|Ht'%list_elem_of_singleton];
          [|done].
        destruct (Hnew t' Ht') as (Htag & Hd1 & Hd2 & l & Hl & Hl0' & Hc).
        split; [done|]. rewrite !lookup_insert_ne by done.
        split; [done|]. split; [done|].
        exists l. split; [done|]. split; [done|].
        rewrite !lookup_insert_ne by (by apply Hfar). done.
  - intros Hnt.
    destruct (Hrest sample (Hnt sample Hin)) as (Hd0 & Hp0 & Hc0').
    assert (labeled (datadict_3d st0) sample) as Hlab0.
    { unfold labeled. by rewrite <-Hp0, Hp. }
    rewrite decide_True by done. simpl. split; [done|].
    destruct start_known as [_ Hs2].
    destruct (Hs2 sample Hin Hlab0) as (_ & l0' & Hl0' & [c0' Hc0'']).
    assert (l0' = l0) as -> by congruence.
    assert (c0' = c0) as -> by (apply Hheap in Hc0''; congruence).
    assert (
      com3d_dict st0 !! sample = Some l0 ∧ heap st0 !! l0 = Some c0 ∧
      <[t := l1]> (com3d_dict st) !! t = Some l1 ∧
      heap st0 !! l1 = None ∧
      <[l1 := vec3_add c0 (com_aug perturb_radius (rand (rng st)))]>
        (<[l1 := c0]> (heap st)) !! l1
        = Some (vec3_add c0 (com_aug perturb_radius (rand (rng st)))) ∧
      <[t := p]> (datadict_3d st) !! t = datadict_3d st0 !! sample ∧
      <[t := d]> (datadict st) !! t = datadict st0 !! sample ∧
      rng st0 ≤ rng st < S (rng st)) as Hgood.
    { rewrite !lookup_insert_eq. rewrite <-Hp0, <-Hd0.
      do 7 (split; [done|]). lia. }
    split; [intros _; exists l0, c0, l1, (rng st); exact Hgood|].
    intros i s (l0' & c0' & l1' & n & Hs0 & Hs0c & Hs1 & Hs1n & Hs1c & Hsp & Hsd
                & Hn).
    destruct (decide (t = tag i s)) as [Heq|Hneq].
    + symmetry in Heq. apply tag_inj in Heq as [-> ->].
      exists l0, c0, l1, (rng st). exact Hgood.
    + exists l0', c0', l1', n. simpl.
      rewrite !lookup_insert_ne by (done || (apply Hfar; by eexists)).
      do 7 (split; [done|]). lia.
Qed.

(** One round: the loop over the train samples at iteration [iter]. *)
Lemma augment_round_spec (iter : nat) (l : list string) (st : state D) :
  iter < aug_iters → (∀ s, s ∈ l → s ∈ train) → known train st → kept st →
  ∃ st',
    for_each (augment_sample rand perturb_radius train iter) l st = Ok st' ∧
    known train st' ∧ kept st' ∧
    (no_tags →
       train_samples_new st'
         = train_samples_new st
           ++ (tag iter <$> filter (labeled (datadict_3d st0)) l) ∧
       (∀ s, s ∈ l → labeled (datadict_3d st0) s → good st' iter s) ∧
       (∀ i s, good st i s → good st' i s)).
Proof.
  intros Hiter. revert st. induction l as [|sample l IH]; intros st Hl Hkn Hkp.
  { exists st. simpl. split; [done|]. split; [done|]. split; [done|].
    intros _. rewrite app_nil_r. split; [done|]. split; [|done].
    by intros s ?%elem_of_nil. }
  destruct (augment_sample_spec iter st sample Hiter)
    as (st1 & Hstep & Hkn1 & Hkp1 & Hex1); [apply Hl; by left|done|done|].
  destruct (IH st1) as (st2 & Hrest & Hkn2 & Hkp2 & Hex2);
    [intros s Hs; apply Hl; by right|done|done|].
  exists st2. cbn [for_each]. rewrite Hstep. simpl.
  split; [done|]. split; [done|]. split; [done|].
  intros Hnt. destruct (Hex1 Hnt) as (Hnew1 & Hgood1 & Hkeep1).
  destruct (Hex2 Hnt) as (Hnew2 & Hgood2 & Hkeep2).
  split; [|split].
  - rewrite Hnew2, Hnew1, <-(assoc _). f_equal.
    rewrite filter_cons. by case_decide.
  - intros s [->|Hs]%elem_of_cons Hlab; [|by apply Hgood2].
    apply Hkeep2, Hgood1, Hlab.
  - intros i s Hg. by apply Hkeep2, Hkeep1.
Qed.

(** The first [k] rounds, from the state in which the function starts
    its loops. *)
Lemma augment_rounds_spec (k : nat) :
  k ≤ aug_iters →
  ∃ st',
    for_each (λ st iter,
        for_each (augment_sample rand perturb_radius train iter) train st)
      (seq 0 k)
      (State (datadict st0) (datadict_3d st0) (com3d_dict st0) (heap st0)
             (rng st0) []) = Ok st' ∧
    known train st' ∧ kept st' ∧
    (no_tags →
       train_samples_new st' = new_tags (datadict_3d st0) train k ∧
       (∀ i s, i < k → s ∈ train → labeled (datadict_3d st0) s →
               good st' i s)).
Proof.
  induction k as [|k IH]; intros Hk.
  { eexists. simpl. split; [done|]. split; [exact start_known|]. split.
    - split; [done|]. split; [done|]. split; [by intros t ?%elem_of_nil|].
      simpl. lia.
    - intros _. split; [done|]. intros i s Hi. lia. }
  destruct IH as (st1 & Hrun1 & Hkn1 & Hkp1 & Hex1); [lia|].
  destruct (augment_round_spec k train st1)
    as (st2 & Hrun2 & Hkn2 & Hkp2 & Hex2); [lia|done|done|done|].
  exists st2. rewrite seq_S, for_each_app, Hrun1. simpl. rewrite Hrun2. simpl.
  split; [done|]. split; [done|]. split; [done|].
  intros Hnt. destruct (Hex1 Hnt) as (Hnew1 & Hgood1).
  destruct (Hex2 Hnt) as (Hnew2 & Hgood2 & Hkeep2). split.
  - by rewrite Hnew2, Hnew1, new_tags_S.
  - intros i s Hi Hs Hlab. destruct (decide (i = k)) as [->|Hne].
    + by apply Hgood2.
    + apply Hkeep2, Hgood1; [lia|done..].
Qed.
End com_aug_facts.

Lemma returned_Ok {A} (r : result A) : returned r = true → ∃ a, r = Ok a.
Proof. destruct r as [a|e]; [by exists a|done]. Qed.

(** C3, amended.  COM augmentation with radius [r] and [m] iterations
    returns whenever the dictionaries hold a pose for every train sample
    and a 2D annotation and a COM array for every labeled one.  The
    identifiers it adds go to the train split only, and the valid split
    is as it was.  Every identifier added is the identifier of a train
    sample with the suffix "-comaug<iteration>" of an iteration below
    [m], and has a 2D annotation, a pose and a COM array that was not
    there before, and took one draw of the generator; no array that was
    there before is written to, and the dictionary entries under
    identifiers that are not such tagged identifiers are as they were;
    different samples or iterations give different tagged identifiers.
    When no train sample is itself such a tagged identifier, the
    identifiers added are, iteration by iteration, the tagged labeled
    entries of the train list, so [m] for each labeled entry; they are
    pairwise different when the train list has no duplicates; the
    entries of the train samples are as they were; and the copy of a
    labeled sample holds the original pose and 2D annotation, and a COM
    array of its own that is the float64 sum of the original COM and the
    perturbation [r * 2 * u - r] of one draw [u] made during the run.
    No bound on the distance of the copy from the original is stated:
    in float64 it can exceed [r]. *)
Theorem com_augmentation_spec (D : Type) (rand : nat → vec3)
    (st : ComAug.state D) (part : partition) (r : f64) (m : nat) :
  (∀ s, s ∈ train_sampleIDs part → is_Some (ComAug.datadict_3d st !! s)) →
  (∀ s, s ∈ train_sampleIDs part → labeled (ComAug.datadict_3d st) s →
     is_Some (ComAug.datadict st !! s) ∧
     ∃ l, ComAug.com3d_dict st !! s = Some l ∧ is_Some (ComAug.heap st !! l)) →
  ∃ a,
    ComAug.sample_COM_augmentation rand st part r m = Ok a ∧
    let train := train_sampleIDs part in
    let st' := ComAug.final a in
    let new := ComAug.train_samples_new st' in
    train_sampleIDs (ComAug.parts a) = sorted (train ++ new) ∧
    valid_sampleIDs (ComAug.parts a) = valid_sampleIDs part ∧
    ComAug.samples a = sorted (train ++ new ++ valid_sampleIDs part) ∧
    (∀ t, t ∈ new →
       (∃ iter s, iter < m ∧ s ∈ train ∧ t = ComAug.tag iter s) ∧
       is_Some (ComAug.datadict st' !! t) ∧
       is_Some (ComAug.datadict_3d st' !! t) ∧
       ∃ l, ComAug.com3d_dict st' !! t = Some l ∧
            ComAug.heap st !! l = None ∧ is_Some (ComAug.heap st' !! l)) ∧
    ComAug.rng st' = ComAug.rng st + length new ∧
    (∀ l c, ComAug.heap st !! l = Some c → ComAug.heap st' !! l = Some c) ∧
    (∀ k, ¬ tag_of train m k →
       ComAug.datadict st' !! k = ComAug.datadict st !! k ∧
       ComAug.datadict_3d st' !! k = ComAug.datadict_3d st !! k ∧
       ComAug.com3d_dict st' !! k = ComAug.com3d_dict st !! k) ∧
    (∀ s s' iter iter',
       ComAug.tag iter s = ComAug.tag iter' s' → s = s' ∧ iter = iter') ∧
    ((∀ s, s ∈ train → ¬ tag_of train m s) →
       new = new_tags (ComAug.datadict_3d st) train m ∧
       length new
         = m * length (filter (labeled (ComAug.datadict_3d st)) train) ∧
       (NoDup train → NoDup new) ∧
       (∀ s, s ∈ train →
          ComAug.datadict st' !! s = ComAug.datadict st !! s ∧
          ComAug.datadict_3d st' !! s = ComAug.datadict_3d st !! s ∧
          ComAug.com3d_dict st' !! s = ComAug.com3d_dict st !! s) ∧
       (∀ s iter,
          s ∈ train → labeled (ComAug.datadict_3d st) s → iter < m →
          ∃ l0 c0 l1 n,
            ComAug.rng st ≤ n < ComAug.rng st' ∧
            ComAug.com3d_dict st !! s = Some l0 ∧
            ComAug.heap st !! l0 = Some c0 ∧
            ComAug.com3d_dict st' !! ComAug.tag iter s = Some l1 ∧
            l1 ≠ l0 ∧ ComAug.heap st !! l1 = None ∧
            ComAug.heap st' !! l1
            = Some (Vec3 (vx c0 + (r * 2 * vx (rand n) - r))
                         (vy c0 + (r * 2 * vy (rand n) - r))
                         (vz c0 + (r * 2 * vz (rand n) - r))) ∧
            ComAug.datadict_3d st' !! ComAug.tag iter s
            = ComAug.datadict_3d st !! s ∧
            ComAug.datadict st' !! ComAug.tag iter s
            = ComAug.datadict st !! s)).
Proof.
  intros Hknown Hlab.
  destruct (augment_rounds_spec D rand r (train_sampleIDs part) m st
              (conj Hknown Hlab) m (le_n m))
    as (st' & Hrun & _ & (Hheap & Hrest & Hnew & Hrng) & Hexact).
  eexists. split.
  { unfold ComAug.sample_COM_augmentation. rewrite Hrun. simpl. done. }
  simpl. do 3 (split; [done|]). split; [exact Hnew|].
  split; [exact Hrng|]. split; [exact Hheap|]. split; [exact Hrest|].
  split. { intros s s' iter iter'. apply tag_inj. }
  intros Hnt. destruct (Hexact Hnt) as [Hnew' Hgood]. rewrite Hnew'.
  split; [done|]. split; [apply length_new_tags|].
  split; [apply NoDup_new_tags|]. split.
  - intros s Hs. by apply Hrest, Hnt.
  - intros s iter Hs Hl Hiter.
    destruct (Hgood iter s Hiter Hs Hl)
      as (l0 & c0 & l1 & n & H0 & H0c & H1 & H1n & H1c & Hp & Hd & Hn).
    exists l0, c0, l1, n. do 4 (split; [done|]).
    split; [intros ->; congruence|]. done.
Qed.

Lemma aug_train_not_tags (m : nat) (s : string) :
  s ∈ train_sampleIDs aug_partition →
  ¬ tag_of (train_sampleIDs aug_partition) m s.
Proof.
  intros Hs (iter & s0 & _ & _ & Heq).
  apply (encoded_not_tagged s); [|by exists iter, s0].
  simpl in Hs. apply elem_of_cons in Hs as [->|Hs]; [by exists 0, 1|].
  apply elem_of_cons in Hs as [->|Hs]; [by exists 0, 2|].
  by apply elem_of_nil in Hs.
Qed.

Lemma com_augmentation_spec_witness :
  ∃ a,
    ComAug.sample_COM_augmentation half_draw aug_state aug_partition 20 2
      = Ok a ∧
    ComAug.train_samples_new (ComAug.final a)
      = ["0_1-comaug0"; "0_1-comaug1"] ∧
    train_sampleIDs (ComAug.parts a)
      = ["0_1"; "0_1-comaug0"; "0_1-comaug1"; "0_2"] ∧
    valid_sampleIDs (ComAug.parts a) = ["0_3"].
Proof.
  destruct (com_augmentation_spec unit half_draw aug_state aug_partition 20 2)
    as (a & Hrun & Htrain & Hvalid & _ & _ & _ & _ & _ & _ & Hexact).
  - intros s Hs. simpl in Hs.
    apply elem_of_cons in Hs as [->|Hs]; [by eexists|].
    apply elem_of_cons in Hs as [->|Hs]; [by eexists|].
    by apply elem_of_nil in Hs.
  - intros s Hs Hl. simpl in Hs.
    apply elem_of_cons in Hs as [->|Hs].
    { split; [by eexists|]. exists 1%positive. split; [done|by eexists]. }
    apply elem_of_cons in Hs as [->|Hs]; [|by apply elem_of_nil in Hs].
    by vm_compute in Hl.
  - destruct (Hexact (aug_train_not_tags 2)) as (Hnew & _).
    exists a. split; [exact Hrun|].
    assert (ComAug.train_samples_new (ComAug.final a)
            = ["0_1-comaug0"; "0_1-comaug1"]) as Hnew'.
    { rewrite Hnew. vm_compute. reflexivity. }
    split; [exact Hnew'|]. split; [|exact Hvalid].
    rewrite Htrain, Hnew'. vm_compute. reflexivity.
Defined.

(** C3, as stated, fails.  The train list holds the labeled sample "0_1"
    twice; one iteration then adds the identifier "0_1-comaug0" twice,
    so the identifiers added are not pairwise different, and the train
    split holds four entries while the dictionaries hold one synthetic
    sample.  With the radius 20, the draw 0 and the original x coordinate
    -12.2, the x coordinate of the copy is the float64 number nearest to
    -32.2, and its distance from the original, computed in float64,
    exceeds 20. *)
Lemma com_augmentation_counterexample :
  ∃ a l1 c1,
    ComAug.sample_COM_augmentation zero_draw twice_state twice_partition 20 1
      = Ok a ∧
    labeled (ComAug.datadict_3d twice_state) "0_1" ∧
    ComAug.train_samples_new (ComAug.final a)
      = ["0_1-comaug0"; "0_1-comaug0"] ∧
    train_sampleIDs (ComAug.parts a)
      = ["0_1"; "0_1"; "0_1-comaug0"; "0_1-comaug0"] ∧
    ComAug.com3d_dict (ComAug.final a) !! "0_1-comaug0" = Some l1 ∧
    ComAug.heap (ComAug.final a) !! l1 = Some c1 ∧
    ComAug.heap twice_state !! 1%positive
      = Some (Vec3 (-0x1.8666666666666p+3) 0 0) ∧
    PrimFloat.ltb 20 (PrimFloat.abs (vx c1 - -0x1.8666666666666p+3)) = true.
Proof.
  eexists _, _, _.
  split; [vm_compute; reflexivity|].
  split; [vm_compute; reflexivity|].
  split; [vm_compute; reflexivity|].
  split; [vm_compute; reflexivity|].
  split; [vm_compute; reflexivity|].
  split; [vm_compute; reflexivity|].
  split; vm_compute; reflexivity.
Qed.

(** ** Partitions *)

(** Whatever state it starts from, when the augmentation returns it has
    left the valid split alone and has added only tagged identifiers to
    the train split. *)
Lemma augmentation_partition {D : Type} (rand : nat → vec3)
    (st : ComAug.state D) (part : partition) (r : f64) (m : nat)
    (a : ComAug.augmented D) :
  ComAug.sample_COM_augmentation rand st part r m = Ok a →
  valid_sampleIDs (ComAug.parts a) = valid_sampleIDs part ∧
  ∃ new, Forall tagged new ∧
         train_sampleIDs (ComAug.parts a) = sorted (train_sampleIDs part ++ new).
Proof.
  unfold ComAug.sample_COM_augmentation.
  intros (st' & Hrun & [= <-])%bind_Ok. simpl. split; [done|].
  exists (ComAug.train_samples_new st'). split; [|done].
  revert Hrun.
  apply (for_each_invariant (λ s, Forall tagged (ComAug.train_samples_new s)));
    [|by constructor].
  intros s1 iter s2 _ Hs1.
  apply (for_each_invariant (λ s, Forall tagged (ComAug.train_samples_new s)));
    [|done].
  intros s3 sample s4 _ Hs3 Hstep. unfold ComAug.augment_sample in Hstep.
  case_decide; [by injection Hstep as <-|].
  apply bind_Ok in Hstep as (p & _ & Hstep).
  destruct (isnan_all p); [by injection Hstep as <-|].
  apply bind_Ok in Hstep as (l & _ & Hstep).
  apply bind_Ok in Hstep as ([l' h] & _ & Hstep).
  apply bind_Ok in Hstep as (h' & _ & Hstep).
  apply bind_Ok in Hstep as (p' & _ & Hstep).
  apply bind_Ok in Hstep as (d & _ & [= <-]). simpl.
  apply Forall_app. split; [done|]. constructor; [|done]. by exists iter, sample.
Qed.

Lemma encode_inj (c : nat) : Inj (=) (=) (λ f, SampleId.encode c (Z.of_nat f)).
Proof.
  intros f f' Heq. unfold SampleId.encode in Heq.
  apply (inj (String.app _)), (inj (String.app _)) in Heq.
  apply (inj pretty) in Heq. lia.
Qed.

Lemma rat7m_train_NoDup : NoDup rat7m_train.
Proof. apply (NoDup_fmap_2 _ (Inj0 := encode_inj 0)), NoDup_seq. Qed.

Lemma rat7m_train_length : length rat7m_train = 2001.
Proof. unfold rat7m_train. by rewrite length_fmap, length_seq. Qed.

(** Fewer draws than different samples leave a sample out. *)
Lemma draws_miss_one (l chosen : list string) :
  NoDup l → length chosen < length l → ∃ s, s ∈ l ∧ s ∉ chosen.
Proof.
  intros Hnd Hlen.
  destruct (decide (Forall (λ s, s ∈ chosen) l)) as [Hall|Hnot].
  - rewrite Forall_forall in Hall.
    assert (l ⊆+ chosen) as Hsub by (by apply NoDup_submseteq).
    apply submseteq_length in Hsub. lia.
  - apply not_Forall_Exists in Hnot; [|apply _].
    apply Exists_exists in Hnot as (s & Hs & Hno). by exists s.
Qed.

(** C5, as stated, fails for [make_rat7m] under [merge_pair]: from a
    split with 2001 different train samples, whatever the 2000 draws
    are, some train sample ends up in neither list of the partition. *)
Lemma rat7m_subsample_counterexample :
  NoDup rat7m_train ∧
  ∀ draw : list string → nat → list string,
    (∀ a size, length (draw a size) = size) →
    ∃ part s,
      Rat7m.make_rat7m_partition draw true rat7m_split = Ok part ∧
      s ∈ train_sampleIDs rat7m_split ∧
      (s ∉ train_sampleIDs part) ∧ (s ∉ valid_sampleIDs part).
Proof.
  split; [apply rat7m_train_NoDup|]. intros draw Hdraw.
  destruct (draws_miss_one rat7m_train (draw rat7m_train 2000))
    as (s & Hs & Hno).
  { apply rat7m_train_NoDup. }
  { rewrite Hdraw, rat7m_train_length. lia. }
  exists (Partition (draw rat7m_train 2000) ["5_0"]), s.
  split; [|split; [done|split; [done|]]].
  - unfold Rat7m.make_rat7m_partition, Rat7m.random_choice. simpl.
    pose proof rat7m_train_length as Hlen.
    destruct rat7m_train; [done|done].
  - simpl. intros Hin%list_elem_of_singleton. subst s.
    apply list_elem_of_fmap in Hs as (f & Hf & _). by vm_compute in Hf.
Qed.

(** C5, amended.  The partition that [make_pair] builds has disjoint train and
    valid lists whose union is the list of all samples; after COM
    augmentation of that partition the two lists are still disjoint,
    and their union without the tagged identifiers is again the list of
    all samples. *)
Theorem pair_partition_disjoint (merge_pair : bool)
    (experiments_train experiments_test : list (list PairLoader.candidate))
    (r : PairLoader.loaded) :
  PairLoader.make_pair merge_pair experiments_train experiments_test = Ok r →
  (∀ s, s ∈ train_sampleIDs (PairLoader.parts r) →
        s ∉ valid_sampleIDs (PairLoader.parts r)) ∧
  (∀ s, s ∈ train_sampleIDs (PairLoader.parts r) ∨
        s ∈ valid_sampleIDs (PairLoader.parts r) ↔
        s ∈ PairLoader.all_samples r) ∧
  ∀ (D : Type) (rand : nat → vec3) (st : ComAug.state D) (radius : f64)
    (iters : nat) (a : ComAug.augmented D),
    ComAug.sample_COM_augmentation rand st (PairLoader.parts r) radius iters
      = Ok a →
    (∀ s, s ∈ train_sampleIDs (ComAug.parts a) →
          s ∉ valid_sampleIDs (ComAug.parts a)) ∧
    (∀ s, (s ∈ train_sampleIDs (ComAug.parts a) ∨
           s ∈ valid_sampleIDs (ComAug.parts a)) ∧ ¬ tagged s ↔
          s ∈ PairLoader.all_samples r).
Proof.
  intros Hrun.
  apply (make_pair_inv (λ _, True)) in Hrun
    as (st1 & st2 & Hparts & Hall & _ & [(e1 & He1 & Henc1) _]
        & [(e2 & He2 & Henc2) _]); [|done].
  rewrite Hparts, Hall. simpl in *. subst e1.
  set (train := PairLoader.samples st1) in *.
  set (all := PairLoader.samples st2) in *.
  assert (∀ s, s ∈ sorted (elements ((list_to_set all : gset string)
                                       ∖ list_to_set (sorted train)))
               ↔ s ∈ all ∧ s ∉ train) as Hvalid.
  { intros s. rewrite elem_of_sorted, elem_of_elements, elem_of_difference,
      !elem_of_list_to_set, elem_of_sorted. done. }
  assert (∀ s, s ∈ train → s ∈ all) as Hsub.
  { intros s Hs. rewrite He2. apply elem_of_app. by left. }
  assert (∀ s, s ∈ all → ¬ tagged s) as Huntagged.
  { intros s Hs. apply encoded_not_tagged. rewrite He2 in Hs.
    rewrite Forall_forall in Henc1, Henc2.
    apply elem_of_app in Hs as [Hs|Hs]; auto. }
  split; [|split].
  - intros s Hs [_ Hno]%Hvalid. apply Hno. by rewrite elem_of_sorted in Hs.
  - intros s. rewrite Hvalid, elem_of_sorted. split.
    + intros [Hs|[Hs _]]; [by apply Hsub|done].
    + intros Hs. destruct (decide (s ∈ train)); [by left|by right].
  - intros D rand st radius iters a Haug.
    apply augmentation_partition in Haug as (-> & new & Hnew & ->). simpl.
    rewrite Forall_forall in Hnew. split.
    + intros s Hs [Hin Hno]%Hvalid.
      rewrite elem_of_sorted, elem_of_app in Hs. destruct Hs as [Hs|Hs].
      * apply Hno. by rewrite elem_of_sorted in Hs.
      * by apply (Huntagged s Hin), Hnew.
    + intros s. rewrite Hvalid, elem_of_sorted, elem_of_app, elem_of_sorted.
      split.
      * intros [[[Hs|Hs]|[Hs _]] Hno];
          [by apply Hsub|destruct Hno; by apply Hnew|done].
      * intros Hs. split; [|by apply Huntagged].
        destruct (decide (s ∈ train)); [left; by left|by right].
Qed.

Lemma pair_partition_disjoint_witness :
  ∃ r, PairLoader.make_pair true [[labeled_candidate]] [] = Ok r ∧
       (∀ s, s ∈ train_sampleIDs (PairLoader.parts r) →
             s ∉ valid_sampleIDs (PairLoader.parts r)) ∧
       (∀ s, s ∈ train_sampleIDs (PairLoader.parts r) ∨
             s ∈ valid_sampleIDs (PairLoader.parts r) ↔
             s ∈ PairLoader.all_samples r).
Proof.
  destruct (returned_Ok (PairLoader.make_pair true [[labeled_candidate]] []))
    as [r Hrun]; [vm_compute; reflexivity|].
  destruct (pair_partition_disjoint true [[labeled_candidate]] [] r Hrun)
    as (Hdisj & Hunion & _).
  exists r. split; [exact Hrun|]. split; [exact Hdisj|exact Hunion].
Defined.
